(** * Release-note generator: reconciliation, chunking and aggregation

A shallow embedding of the pure core of the release-note scripts
([multiple_repos_release_notes.py], [from_prs_release_notes.py] and the
three commit-only variants) together with the properties their
specification states about it.

Python values are modelled as follows:
- [str] is a list of Unicode code points ([N]), so that [len] counts
  characters the way Python does;
- a list is a Rocq [list], a [set] of strings is a [gset];
- a callable that may touch the outside world and may raise is a function
  into the state-and-exception monad [py W];
- integers are [Z]. *)

From Stdlib Require Import ZArith NArith Ascii String DecimalString.
From stdpp Require Import base option list gmap sets.

Local Open Scope Z_scope.
Local Open Scope list_scope.

(** ** Text *)

Abbreviation str := (list N).

(** A string literal of the source, for literals made of one-byte characters. *)
Definition lit (s : string) : str := N_of_ascii <$> list_ascii_of_string s.

Definition len {A} (l : list A) : Z := Z.of_nat (length l).

(** [str.isspace] for one character: the code points CPython lists as
    white space. *)
Definition isspace (c : N) : bool :=
  ((9 <=? c) && (c <=? 13) || (28 <=? c) && (c <=? 32)
   || (c =? 133) || (c =? 160) || (c =? 5760)
   || (8192 <=? c) && (c <=? 8202)
   || (c =? 8232) || (c =? 8233) || (c =? 8239) || (c =? 8287)
   || (c =? 12288))%N.

Fixpoint lstrip (s : str) : str :=
  match s with
  | c :: s' => if isspace c then lstrip s' else s
  | [] => []
  end.

Definition rstrip (s : str) : str := reverse (lstrip (reverse s)).

(** [s.strip()] *)
Definition strip (s : str) : str := rstrip (lstrip s).

(** [s.split(sep)] for a one-character separator. *)
Fixpoint split (sep : N) (s : str) : list str :=
  match s with
  | [] => [[]]
  | c :: s' =>
      if (c =? sep)%N then [] :: split sep s'
      else match split sep s' with
           | w :: ws => (c :: w) :: ws
           | [] => [[c]]
           end
  end.

Definition newline : N := 10.

(** [s.startswith(prefix)] *)
Fixpoint startswith (s prefix : str) : bool :=
  match prefix, s with
  | [], _ => true
  | p :: prefix', c :: s' => (c =? p)%N && startswith s' prefix'
  | _ :: _, [] => false
  end.

(** [sep.join(parts)] *)
Fixpoint join (sep : str) (parts : list str) : str :=
  match parts with
  | [] => []
  | [p] => p
  | p :: rest => p ++ sep ++ join sep rest
  end.

(** [str(n)] for a non-negative integer. *)
Definition str_of_nat (n : nat) : str :=
  lit (NilEmpty.string_of_uint (Nat.to_uint n)).

(** Lower-casing restricted to the letters A-Z; it agrees with [str.lower]
    on ASCII text and serves as the instance in the examples. *)
Definition ascii_lower (s : str) : str :=
  (fun c => if (65 <=? c) && (c <=? 90) then c + 32 else c)%N <$> s.

(** ** Exceptions and effects *)

Inductive exn : Type :=
| ValueError
| IndexError
| ExternalError (what : str).

Inductive outcome (A : Type) : Type :=
| Returned (a : A)
| Raised (e : exn).
Arguments Returned {A} a.
Arguments Raised {A} e.

(** A computation over a world [W] (the network, the provider, a test
    stub's record of calls): it ends in a new world and either a value or
    an exception. *)
Definition py (W A : Type) : Type := W -> W * outcome A.

Definition ret {W A} (a : A) : py W A := fun w => (w, Returned a).

Definition raise {W A} (e : exn) : py W A := fun w => (w, Raised e).

Definition bind {W A B} (m : py W A) (k : A -> py W B) : py W B :=
  fun w =>
    match m w with
    | (w', Returned a) => k a w'
    | (w', Raised e) => (w', Raised e)
    end.

(** A pure step that may raise. *)
Definition lift {W A} (o : outcome A) : py W A := fun w => (w, o).

Declare Scope py_scope.
Delimit Scope py_scope with py.
Notation "x <- m ;; k" := (bind m (fun x => k))
  (at level 100, m at next level, right associativity) : py_scope.

(** ** Built-ins used by the chunker *)

(** Number of elements of [range(start, stop, step)] for a non-zero step. *)
Definition range_length (start stop step : Z) : nat :=
  if 0 <? step then
    if start <? stop then Z.to_nat ((stop - start - 1) / step + 1) else 0%nat
  else
    if stop <? start then Z.to_nat ((start - stop - 1) / (- step) + 1) else 0%nat.

(** [range(start, stop, step)]; a zero step raises [ValueError]. *)
Definition range (start stop step : Z) : outcome (list Z) :=
  if step =? 0 then Raised ValueError
  else Returned ((fun k => start + Z.of_nat k * step) <$>
                 seq 0 (range_length start stop step)).

(** An end point of a slice, clamped into [0..len] the way Python does
    (negative indices count from the end). *)
Definition slice_index {A} (l : list A) (i : Z) : nat :=
  if i <? 0 then Z.to_nat (Z.max 0 (i + len l))
  else Z.to_nat (Z.min i (len l)).

(** [l[i:j]] *)
Definition slice {A} (l : list A) (i j : Z) : list A :=
  let lo := slice_index l i in
  let hi := slice_index l j in
  take (hi - lo) (drop lo l).

(** ** The chunker: [chunk_list]

    The generator is run to completion: it is pure, so the list of the
    chunks it yields is all a caller can see of it. *)
Definition chunk_list {A} (lst : list A) (chunk_size : Z)
  : outcome (list (list A)) :=
  match range 0 (len lst) chunk_size with
  | Returned idx => Returned ((fun i => slice lst i (i + chunk_size)) <$> idx)
  | Raised e => Raised e
  end.

(** ** Records fetched from the hosting service *)

(** The dictionary [get_merged_prs] builds for a merged pull request. *)
Record PR : Type := {
  number : Z;
  title : str;
  body : str;
  author : str;
  merged_at : Z;
  commit_shas : gset str
}.

(** A commit object of the hosting library: [c.sha] and
    [c.commit.message]. *)
Record GitCommit : Type := { message : str }.
Record Commit : Type := { sha : str; commit : GitCommit }.

(** ** The deduplicator: [filter_orphan_commits] *)

Definition filter_orphan_commits (commit_objs : list Commit) (pr_list : list PR)
  : list Commit :=
  let pr_commit_shas :=
    foldl (fun shas pr => shas ∪ commit_shas pr) (∅ : gset str) pr_list in
  filter (fun c => sha c ∉ pr_commit_shas) commit_objs.

(** ** The item normalizer: [prep_llm_input] *)

(** [xs[0]] on the result of [split], which is never empty. *)
Definition first_part (parts : list str) : str := default [] (head parts).

Section Normalizer.
(** The literal put between a title and its description. *)
Variable dash : str.

Definition prep_llm_input (pr_list : list PR) (orphan_commits : list Commit)
  : list str :=
  let lines :=
    foldl (fun lines pr =>
             let summary := title pr in
             let summary :=
               if bool_decide (body pr <> []) then summary ++ dash ++ body pr
               else summary in
             lines ++ [lit "PR: " ++ summary])
          [] pr_list in
  foldl (fun lines c =>
           let summary := strip (first_part (split newline (message (commit c)))) in
           lines ++ [lit "Commit: " ++ summary])
        lines orphan_commits.
End Normalizer.

(** ** The chunk planner: [need_chunking] *)

Definition default_max_items : Z := 40.
Definition default_max_chars : Z := 10000.
Definition default_chunk_size : Z := 30.

(** [sum(len(m) for m in items)] *)
Definition total_len (items : list str) : Z :=
  foldl (fun acc m => acc + len m) 0 items.

Definition need_chunking (items : list str) (max_items max_chars : Z) : bool :=
  if max_items <? len items then true
  else
    let total_chars := total_len items in
    if max_chars <? total_chars then true
    else false.

(** ** The hierarchical aggregator: [summarize_in_chunks] *)

Section Aggregator.
Context {W : Type}.
(** The fixed instruction that opens the merge prompt; the copies of the
    function differ only in the wording of this literal. *)
Variable merge_instruction : str.

Local Open Scope py_scope.

(** The loop [for chunk in ...: summaries.append(f(chunk))]. *)
Fixpoint summarize_each (f : list str -> py W str) (chunks : list (list str))
    (summaries : list str) : py W (list str) :=
  match chunks with
  | [] => ret summaries
  | chunk :: rest =>
      summary <- f chunk ;;
      summarize_each f rest (summaries ++ [summary])
  end.

(** ["Batch {i+1}:\n{summary}"] for every [(i, summary)] of
    [enumerate(summaries)], joined by a blank line after the instruction. *)
Definition final_prompt (summaries : list str) : str :=
  merge_instruction ++
  join [newline; newline]
    (imap (fun i summary =>
             lit "Batch " ++ str_of_nat (i + 1) ++ lit ":" ++ [newline] ++ summary)
          summaries).

Definition summarize_in_chunks (items : list str)
    (get_release_notes_func : list str -> py W str) (chunk_size : Z)
  : py W str :=
  chunks <- lift (chunk_list items chunk_size) ;;
  summaries <- summarize_each get_release_notes_func chunks [] ;;
  if (length summaries =? 1)%nat then
    match summaries !! 0%nat with
    | Some s => ret s
    | None => raise IndexError
    end
  else
    get_release_notes_func [final_prompt summaries].
End Aggregator.

(** ** A stub that records its calls

    [recording f] behaves as [f] and appends the argument of every call to
    a log kept next to the world of [f]. *)
Definition recording {W A B} (f : A -> py W B) : A -> py (W * list A) B :=
  fun a '(w, calls) =>
    let '(w', r) := f a w in ((w', calls ++ [a]), r).

(** ** [multiple_repos_release_notes.py] *)

Module MultipleRepos.

(** U+2014, between spaces. *)
Definition dash : str := [32; 8212; 32]%N.

Definition prep_llm_input := prep_llm_input dash.

Definition sentinel : str := lit "No changes found in the selected period.".

Definition instruction : str :=
  lit "You are a professional technical writer. Given these PRs and commits, generate a concise, categorized release note in Markdown for end-users. "
  ++ lit "Group under Features, Fixes, and Improvements. Prefer the PR description if available. Omit trivial/internal changes."
  ++ [newline; newline].

Definition merge_instruction : str :=
  lit "Here are several summaries of code changes for a release. "
  ++ lit "Write a single, clear, categorized release note in Markdown for end-users, grouping by Features, Fixes, Improvements."
  ++ [newline; newline].

Section Adapter.
Context {W : Type}.
(** The chat-completion request: the text of the first choice for a
    prompt, or the exception the provider's client raises. *)
Variable chat : str -> py W str.

Local Open Scope py_scope.

Definition get_release_notes (items : list str) : py W str :=
  if bool_decide (items = []) then ret sentinel
  else
    let prompt :=
      instruction ++ lit "Changes:" ++ [newline] ++
      join [newline] ((fun item => lit "- " ++ item) <$> items) in
    content <- chat prompt ;;
    ret (strip content).

Definition summarize_in_chunks := summarize_in_chunks (W := W) merge_instruction.

(** The summarization step of the main loop (lines 179-183). *)
Definition release_notes_for (items_for_llm : list str) : py W str :=
  if need_chunking items_for_llm default_max_items default_max_chars then
    summarize_in_chunks items_for_llm get_release_notes default_chunk_size
  else
    get_release_notes items_for_llm.
End Adapter.

End MultipleRepos.

(** ** [from_prs_release_notes.py] *)

Module FromPrs.

(** The three characters U+00E2, U+20AC, U+201D the file holds between the
    two spaces. *)
Definition dash : str := [32; 226; 8364; 8221; 32]%N.

Definition prep_llm_input := prep_llm_input dash.

End FromPrs.

(** ** The commit-only variants

    [get_commits] of [from_commits_release_notes.py],
    [from_commits_with_GeminiApiKey.py] and [from_commits_with_Ollama.py];
    the three copies of the loop are the same. *)

Module FromCommits.

Section Fetch.
(** [str.lower] *)
Variable lower : str -> str.

(** The loop over the commits the hosting service returned for the
    window. *)
Definition get_commits (commits : list Commit) : list str :=
  foldl (fun messages c =>
           let msg := strip (message (commit c)) in
           if bool_decide (msg <> []) && negb (startswith (lower msg) (lit "merge"))
           then messages ++ [msg]
           else messages)
        [] commits.
End Fetch.

End FromCommits.

(** ** The pull-request fetch: [get_merged_prs]

    The function is the same in [multiple_repos_release_notes.py] and in
    [from_prs_release_notes.py]. The hosting service is outside the model:
    the closed pull requests it lists, the commits it reports for each of
    them and the two parsed dates are what the loop starts from. *)

Module PullRequest.

Record NamedUser : Type := { login : str }.

(** A pull-request object of the hosting library; [body] and [merged_at]
    may be [None]; [get_commits] is the list the call of that name
    returns. *)
Record t : Type := {
  number : Z;
  title : str;
  body : option str;
  user : NamedUser;
  merged_at : option Z;
  get_commits : list Commit
}.

End PullRequest.

Definition get_merged_prs (pulls : list PullRequest.t) (since_dt until_dt : Z)
  : list PR :=
  foldl (fun prs pr =>
           match PullRequest.merged_at pr with
           | None => prs
           | Some merged =>
               if negb ((since_dt <=? merged) && (merged <=? until_dt)) then prs
               else
                 let shas := sha <$> PullRequest.get_commits pr in
                 prs ++ [{| number := PullRequest.number pr;
                            title := strip (PullRequest.title pr);
                            body := strip (first_part (split newline
                                      (default [] (PullRequest.body pr))));
                            author := PullRequest.login (PullRequest.user pr);
                            merged_at := merged;
                            commit_shas := list_to_set shas |}]
           end)
        [] pulls.

(** ** The repository prompt: [prompt_for_list] *)

(** An entry of the [repos] list of the configuration. *)
Record Repo : Type := { owner : str; name : str }.

Definition comma : N := 44.
Definition slash : N := 47.

(** [", ".join(f"{r['owner']}/{r['name']}" for r in default_list)] *)
Definition default_str (default_list : list Repo) : str :=
  join (lit ", ") ((fun r => owner r ++ [slash] ++ name r) <$> default_list).

(** The text [prompt_for_list] shows before it reads a line. *)
Definition prompt_text (prompt : str) (default_list : list Repo) : str :=
  prompt ++ lit " (comma-separated, default: " ++ default_str default_list
  ++ lit "): ".

Section Console.
Context {W : Type}.
(** [input]: shows a text and gives back the line that was typed. *)
Variable input : str -> py W str.

Local Open Scope py_scope.

Definition prompt_for_list (prompt : str) (default_list : list Repo)
  : py W (list Repo) :=
  typed <- input (prompt_text prompt default_list) ;;
  let user_input := strip typed in
  if bool_decide (user_input = []) then ret default_list
  else
    let out :=
      foldl (fun out item =>
               let owner_repo := split slash (strip item) in
               if (length owner_repo =? 2)%nat then
                 out ++ [{| owner := nth 0 owner_repo [];
                            name := nth 1 owner_repo [] |}]
               else out)
            [] (split comma user_input) in
    ret (if bool_decide (out <> []) then out else default_list).
End Console.

(** ** Vocabulary of the statements

    Definitions that follow the words of the specification; the theorems
    compare the code with them. *)

(** A text made of white space only. *)
Definition blank (s : str) : Prop := Forall (fun c => isspace c = true) s.

(** The text before the first line feed. *)
Fixpoint first_line (s : str) : str :=
  match s with
  | [] => []
  | c :: s' => if (c =? newline)%N then [] else c :: first_line s'
  end.

(** The item of a change request: ["PR: <title>"], followed by the dash and
    the description when there is one. *)
Definition item_of_pr (dash : str) (pr : PR) : str :=
  match body pr with
  | [] => lit "PR: " ++ title pr
  | _ :: _ => lit "PR: " ++ title pr ++ dash ++ body pr
  end.

(** The item of a commit: ["Commit: "] and the trimmed first line of its
    message. *)
Definition item_of_commit (c : Commit) : str :=
  lit "Commit: " ++ strip (first_line (message (commit c))).

(** A trimmed message is kept by the commit-only fetch when it is not empty
    and its lower-cased form does not start with [merge]. *)
Definition kept (lower : str -> str) (msg : str) : Prop :=
  msg <> [] /\ startswith (lower msg) (lit "merge") = false.

(** Calling [f] on each chunk in turn, from the world [w]: the summaries in
    chunk order and the world after the last call, or the first exception. *)
Fixpoint call_each {W} (f : list str -> py W str) (chunks : list (list str))
    (w : W) : W * outcome (list str) :=
  match chunks with
  | [] => (w, Returned [])
  | chunk :: rest =>
      match f chunk w with
      | (w1, Returned s) =>
          match call_each f rest w1 with
          | (w2, Returned ss) => (w2, Returned (s :: ss))
          | (w2, Raised e) => (w2, Raised e)
          end
      | (w1, Raised e) => (w1, Raised e)
      end
  end.

(** A text that neither starts nor ends with white space. *)
Definition trimmed (s : str) : Prop :=
  (forall c, head s = Some c -> isspace c = false) /\
  (forall c, last s = Some c -> isspace c = false).

(** A text without line feed. *)
Definition single_line (s : str) : Prop := newline ∉ s.

(** A pull request that was merged, and merged within the window. *)
Definition merged_within (since_dt until_dt : Z) (pr : PullRequest.t) : Prop :=
  match PullRequest.merged_at pr with
  | Some merged => since_dt <= merged <= until_dt
  | None => False
  end.

#[global] Instance merged_within_dec since_dt until_dt pr :
  Decision (merged_within since_dt until_dt pr).
Proof. unfold merged_within. destruct (PullRequest.merged_at pr); apply _. Defined.

(** The record the fetch builds for a pull request merged at [merged]. *)
Definition pr_of_pull (pr : PullRequest.t) (merged : Z) : PR :=
  {| number := PullRequest.number pr;
     title := strip (PullRequest.title pr);
     body := strip (first_line (default [] (PullRequest.body pr)));
     author := PullRequest.login (PullRequest.user pr);
     merged_at := merged;
     commit_shas := list_to_set (sha <$> PullRequest.get_commits pr) |}.

(** The loop of [prompt_for_list] over the entries typed. *)
Definition parse_entries (entries : list str) (out : list Repo) : list Repo :=
  foldl (fun out item =>
           let owner_repo := split slash (strip item) in
           if (length owner_repo =? 2)%nat then
             out ++ [{| owner := nth 0 owner_repo [];
                        name := nth 1 owner_repo [] |}]
           else out)
        out entries.

(** A repository entry whose owner and name hold neither slash nor comma. *)
Definition separator_free (r : Repo) : Prop :=
  (slash ∉ owner r) /\ (slash ∉ name r) /\
  (comma ∉ owner r) /\ (comma ∉ name r).

(** A repository entry that the prompt can show and read back: no
    separator in it, no white space before the owner or after the name. *)
Definition plain_repo (r : Repo) : Prop :=
  separator_free r /\
  (forall c, head (owner r) = Some c -> isspace c = false) /\
  (forall c, last (name r) = Some c -> isspace c = false).

(** A pull request merged at time 5, with an untrimmed title, a body of two
    lines and two commits. *)
Definition sample_pull : PullRequest.t :=
  {| PullRequest.number := 12;
     PullRequest.title := lit "  Add export ";
     PullRequest.body := Some (lit " First line " ++ [newline] ++ lit "second");
     PullRequest.user := {| PullRequest.login := lit "dev" |};
     PullRequest.merged_at := Some 5;
     PullRequest.get_commits :=
       [ {| sha := lit "a1"; commit := {| message := lit "wip" |} |};
         {| sha := lit "b2"; commit := {| message := lit "done" |} |} ] |}.

(** Two entries of a configuration. *)
Definition sample_repos : list Repo :=
  [ {| owner := lit "octo"; name := lit "app" |};
    {| owner := lit "core"; name := lit "lib" |} ].

(** A provider that answers every prompt with the same padded text. *)
Definition canned : str -> py unit str := fun _ => ret (lit "  notes ").

(** A summarize function that raises on one list of items and echoes the
    others. *)
Definition failing_on (bad : list str) : list str -> py unit str :=
  fun items =>
    if bool_decide (items = bad) then raise (ExternalError (lit "quota"))
    else ret (concat items).

(** A console on which one line has been typed ahead. *)
Definition typing (line : str) : str -> py unit str := fun _ => ret line.

(** A stub that answers every call with the items it was given, glued
    together, and never raises. *)
Definition echo : list str -> py unit str := fun items => ret (concat items).

(** The records of the first scenario of the specification: five pull
    requests that subsume two commits each, and twenty commits of which the
    first ten are subsumed. *)
Definition scenario_prs : list PR :=
  (fun i : nat =>
     {| number := Z.of_nat (i + 1);
        title := lit "Change " ++ str_of_nat (i + 1);
        body := [];
        author := lit "dev";
        merged_at := 0;
        commit_shas := {[ str_of_nat (2 * i); str_of_nat (2 * i + 1) ]} |})
  <$> seq 0 5.

Definition scenario_commits : list Commit :=
  (fun k : nat =>
     {| sha := str_of_nat k;
        commit := {| message := lit "commit " ++ str_of_nat k |} |})
  <$> seq 0 20.

(** * Properties *)

(** ** Chunking *)

Section ChunkFacts.
Context {A : Type}.
Implicit Types (lst : list A) (n : Z).

Lemma take_min_length lst (a : nat) :
  take (a `min` length lst) lst = take a lst.
Proof.
  destruct (Nat.le_ge_cases a (length lst)).
  - by rewrite Nat.min_l.
  - rewrite Nat.min_r by done. by rewrite !take_ge.
Qed.

(** How many indices [range(0, len, n)] has, for a positive step: the
    least [c] with [len <= c * n]. *)
Lemma range_length_bounds (stop n : Z) :
  0 < n -> 0 <= stop ->
  let c := Z.of_nat (range_length 0 stop n) in
  stop <= c * n /\ (c - 1) * n < stop.
Proof.
  intros Hn Hstop. unfold range_length.
  destruct (Z.ltb_spec 0 n) as [_|]; [|lia].
  destruct (Z.ltb_spec 0 stop) as [Hpos|Hz].
  - pose proof (Z.div_pos (stop - 0 - 1) n ltac:(lia) Hn) as Hq.
    pose proof (Z.mul_div_le (stop - 0 - 1) n Hn).
    pose proof (Z.mul_succ_div_gt (stop - 0 - 1) n Hn).
    rewrite Z2Nat.id by lia. simpl. nia.
  - simpl. nia.
Qed.

(** With a positive size, chunk [k] is the [n] elements from position
    [k * n] on (fewer at the end of the list). *)
Lemma chunk_list_pos lst n :
  0 < n ->
  chunk_list lst n =
    Returned ((fun k : nat => take (Z.to_nat n) (drop (k * Z.to_nat n) lst))
              <$> seq 0 (range_length 0 (len lst) n)).
Proof.
  intros Hn. unfold chunk_list, range.
  destruct (Z.eqb_spec n 0) as [|_]; [lia|].
  f_equal. rewrite <- list_fmap_compose.
  destruct (range_length_bounds (len lst) n Hn ltac:(unfold len; lia)) as [_ Hlt].
  apply list_fmap_ext. intros i k Hk. simpl.
  apply lookup_seq in Hk as [-> Hk]. change (0 + i)%nat with i in *.
  unfold len in *.
  assert (Z.of_nat i * n < Z.of_nat (length lst)) as Hin by nia.
  unfold slice, slice_index, len.
  destruct (Z.ltb_spec (0 + Z.of_nat i * n) 0); [lia|].
  destruct (Z.ltb_spec (0 + Z.of_nat i * n + n) 0); [lia|].
  rewrite (Z.min_l (0 + Z.of_nat i * n)) by lia.
  replace (0 + Z.of_nat i * n) with (Z.of_nat (i * Z.to_nat n))
    by (rewrite Nat2Z.inj_mul, Z2Nat.id; lia).
  rewrite Nat2Z.id.
  rewrite <- (take_min_length _ (Z.to_nat n)), length_drop.
  f_equal. lia.
Qed.

Lemma concat_chunks_take lst (m c : nat) :
  concat ((fun k : nat => take m (drop (k * m) lst)) <$> seq 0 c)
  = take (c * m) lst.
Proof.
  induction c as [|c IH]; [done|].
  rewrite seq_S, fmap_app, concat_app, IH. simpl.
  rewrite app_nil_r, take_take_drop. f_equal. lia.
Qed.

(** The empty list has no chunk. *)
Lemma chunk_list_nil n : n <> 0 -> chunk_list (@nil A) n = Returned [].
Proof.
  intros Hn. unfold chunk_list, range, range_length, len. simpl length.
  destruct (Z.eqb_spec n 0); [done|].
  by destruct (0 <? n).
Qed.

(** A non-empty list no longer than the chunk size is its own single
    chunk. *)
Lemma chunk_list_single lst n :
  lst <> [] -> len lst <= n -> chunk_list lst n = Returned [lst].
Proof.
  intros Hne Hle. unfold len in Hle.
  assert (0 < length lst)%nat by (destruct lst; [done | simpl; lia]).
  rewrite chunk_list_pos by lia.
  unfold range_length, len.
  destruct (Z.ltb_spec 0 n); [|lia].
  destruct (Z.ltb_spec 0 (Z.of_nat (length lst))); [|lia].
  rewrite Z.div_small by lia.
  change (Z.to_nat (0 + 1)) with 1%nat.
  cbn [seq fmap list_fmap Nat.mul].
  rewrite drop_0, take_ge by lia. done.
Qed.

(** C5. For every list [L] and every chunk size [n >= 1], [chunk_list]
    returns, and the concatenation of its chunks in order is [L] itself:
    nothing is reordered, dropped or duplicated. *)
Theorem chunk_list_concat (L : list A) (n : Z) :
  1 <= n ->
  exists chunks, chunk_list L n = Returned chunks /\ concat chunks = L.
Proof.
  intros Hn. eexists. split; [apply chunk_list_pos; lia|].
  rewrite concat_chunks_take. apply take_ge.
  destruct (range_length_bounds (len L) n ltac:(lia) ltac:(unfold len; lia))
    as [Hge _].
  unfold len in Hge. apply Nat2Z.inj_le.
  rewrite Nat2Z.inj_mul, Z2Nat.id by lia. done.
Qed.

(** C7. For every list [L] and chunk size [n >= 1], every chunk but the
    last has exactly [n] elements, and the last one has [len(L) mod n]
    elements, or [n] when [n] divides [len(L)]. *)
Theorem chunk_list_sizes (L : list A) (n : Z) :
  1 <= n ->
  exists chunks,
    chunk_list L n = Returned chunks /\
    (forall (i : nat) c,
        chunks !! i = Some c -> (S i < length chunks)%nat -> len c = n) /\
    (forall c,
        last chunks = Some c ->
        len c = if len L mod n =? 0 then n else len L mod n).
Proof.
  intros Hn. eexists. split; [apply chunk_list_pos; lia|].
  destruct (range_length_bounds (len L) n ltac:(lia) ltac:(unfold len; lia))
    as [Hge Hlt].
  set (cnt := range_length 0 (len L) n) in *.
  split.
  - intros i c Hi Hlast.
    rewrite length_fmap, length_seq in Hlast.
    rewrite list_lookup_fmap in Hi.
    destruct (seq 0 cnt !! i) as [k|] eqn:Hk; [|done].
    apply lookup_seq in Hk as [-> _]. simpl in Hi. injection Hi as <-.
    unfold len in *. rewrite length_take, length_drop. nia.
  - intros c Hc. rewrite fmap_last in Hc.
    destruct (last (seq 0 cnt)) as [k|] eqn:Hk; [|done].
    simpl in Hc. injection Hc as <-.
    rewrite last_lookup, length_seq in Hk.
    apply lookup_seq in Hk as [-> Hk]. simpl.
    assert (0 < cnt)%nat by lia.
    unfold len in *. rewrite length_take, length_drop.
    set (r := Z.of_nat (length L) - (Z.of_nat cnt - 1) * n).
    assert (0 < r <= n) as Hr by (unfold r; nia).
    assert (Z.of_nat (Z.to_nat n `min` (length L - Nat.pred cnt * Z.to_nat n)) = r)
      as -> by (unfold r; nia).
    destruct (Z.eq_dec r n) as [Heq|Hneq].
    + assert (Z.of_nat (length L) mod n = 0) as ->.
      { apply Z.mod_divide; [lia|]. exists (Z.of_nat cnt). unfold r in Heq. nia. }
      simpl. lia.
    + assert (Z.of_nat (length L) mod n = r) as ->.
      { symmetry. apply (Z.mod_unique _ _ (Z.of_nat cnt - 1)); [lia|unfold r; nia]. }
      destruct (Z.eqb_spec r 0); lia.
Qed.
End ChunkFacts.

Lemma chunk_list_concat_witness :
  1 <= 3 /\
  exists chunks,
    chunk_list [1; 2; 3; 4; 5; 6; 7]%nat 3 = Returned chunks /\
    concat chunks = [1; 2; 3; 4; 5; 6; 7]%nat.
Proof. split; [lia | apply (chunk_list_concat _ 3); lia]. Defined.

Lemma chunk_list_sizes_witness :
  1 <= 30 /\
  exists chunks,
    chunk_list (replicate 100 [120%N]) 30 = Returned chunks /\
    (forall (i : nat) c,
        chunks !! i = Some c -> (S i < length chunks)%nat -> len c = 30) /\
    (forall c,
        last chunks = Some c ->
        len c = if len (replicate 100 [120%N]) mod 30 =? 0 then 30
                else len (replicate 100 [120%N]) mod 30).
Proof. split; [lia | apply (chunk_list_sizes _ 30); lia]. Defined.

(** The second scenario of the specification: a hundred items in chunks of
    thirty give chunks of 30, 30, 30 and 10 items. *)
Example chunk_list_hundred :
  match chunk_list (replicate 100 [120%N]) 30 with
  | Returned chunks => length <$> chunks = [30; 30; 30; 10]%nat
  | Raised _ => False
  end.
Proof. vm_compute. reflexivity. Qed.

(** A zero chunk size is rejected, a negative one yields no chunk at all. *)
Example chunk_list_zero : chunk_list [1; 2; 3]%nat 0 = Raised ValueError.
Proof. reflexivity. Qed.

Example chunk_list_negative : chunk_list [1; 2; 3]%nat (-2) = Returned [].
Proof. reflexivity. Qed.

(** ** Deduplication *)

Section Dedup.
Implicit Types (C : list Commit) (P : list PR) (c : Commit).

(** The set the loop over the pull requests accumulates is the union of
    their sets. *)
Lemma elem_of_accumulated_shas P (s0 : gset str) (x : str) :
  x ∈ foldl (fun shas pr => shas ∪ commit_shas pr) s0 P
  <-> x ∈ s0 \/ x ∈ ⋃ (commit_shas <$> P).
Proof.
  revert s0. induction P as [|p P IH]; intros s0; simpl.
  - rewrite elem_of_empty. tauto.
  - rewrite IH, !elem_of_union. tauto.
Qed.

Lemma filter_orphan_commits_filter C P :
  filter_orphan_commits C P
  = filter (fun c => sha c ∉ ⋃ (commit_shas <$> P)) C.
Proof.
  unfold filter_orphan_commits. apply list_filter_iff. intros c.
  rewrite elem_of_accumulated_shas, elem_of_empty. tauto.
Qed.

(** C4. [filter_orphan_commits C P] is the sub-sequence of [C] made of the
    commits whose identifier is not in the union of the pull requests'
    sets: it holds none of the covered commits, all of the others, in the
    order of [C]; with no pull request it is [C]. *)
Theorem filter_orphan_commits_complete C P :
  let covered := ⋃ (commit_shas <$> P) in
  (forall c, c ∈ filter_orphan_commits C P -> sha c ∉ covered) /\
  (forall c, c ∈ C -> sha c ∉ covered -> c ∈ filter_orphan_commits C P) /\
  filter_orphan_commits C P = filter (fun c => sha c ∉ covered) C /\
  filter_orphan_commits C P `sublist_of` C /\
  filter_orphan_commits C [] = C.
Proof.
  intros covered. rewrite filter_orphan_commits_filter. fold covered.
  repeat split.
  - intros c Hc. by apply list_elem_of_filter in Hc as [? _].
  - intros c Hc Hn. by apply list_elem_of_filter.
  - apply sublist_filter.
  - unfold filter_orphan_commits. simpl.
    induction C as [|c C IH]; [done|].
    rewrite filter_cons_True by set_solver. by rewrite IH.
Qed.

(** C9. Deduplicating twice is deduplicating once. *)
Theorem filter_orphan_commits_idempotent C P :
  filter_orphan_commits (filter_orphan_commits C P) P
  = filter_orphan_commits C P.
Proof.
  rewrite !filter_orphan_commits_filter, list_filter_filter.
  apply list_filter_iff. tauto.
Qed.
End Dedup.

(** ** The planner's threshold *)

Section Planner.
Implicit Types (items : list str).

Lemma foldl_len_sum items (acc : Z) :
  foldl (fun acc m => acc + len m) acc items
  = acc + Z.of_nat (sum_list (length <$> items)).
Proof.
  revert acc. induction items as [|m items IH]; intros acc; csimpl.
  - lia.
  - rewrite IH. unfold len. lia.
Qed.

Lemma total_len_sum items :
  total_len items = Z.of_nat (sum_list (length <$> items)).
Proof. unfold total_len. rewrite foldl_len_sum. lia. Qed.

(** C6. [need_chunking] answers true exactly when there are more than
    [max_items] items or their lengths add up to more than [max_chars];
    at the boundary itself it answers false. The defaults are 40 and
    10000. The function is pure: it is a function into [bool], outside
    the monad of effects. *)
Theorem need_chunking_threshold items (max_items max_chars : Z) :
  (need_chunking items max_items max_chars = true
   <-> max_items < len items
       \/ max_chars < Z.of_nat (sum_list (length <$> items))) /\
  (len items = max_items ->
   Z.of_nat (sum_list (length <$> items)) = max_chars ->
   need_chunking items max_items max_chars = false) /\
  default_max_items = 40 /\ default_max_chars = 10000.
Proof.
  unfold need_chunking. rewrite total_len_sum.
  split; [|split; [|done]].
  - destruct (Z.ltb_spec max_items (len items));
      destruct (Z.ltb_spec max_chars (Z.of_nat (sum_list (length <$> items))));
      intuition (try discriminate; lia).
  - intros Hitems Hchars.
    destruct (Z.ltb_spec max_items (len items)); [lia|].
    destruct (Z.ltb_spec max_chars (Z.of_nat (sum_list (length <$> items))));
      [lia|done].
Qed.
End Planner.

(** Forty items of two hundred and fifty characters sit on both
    thresholds. *)
Example need_chunking_boundary :
  need_chunking (replicate 40 (replicate 250 120%N))
                default_max_items default_max_chars = false
  /\ need_chunking (replicate 41 []) default_max_items default_max_chars = true
  /\ need_chunking [replicate (Z.to_nat 10001) 120%N]
                   default_max_items default_max_chars = true.
Proof. vm_compute. done. Qed.

(** ** Trimming and first lines *)

Section TextFacts.
Implicit Types (s : str).

Lemma lstrip_split s : exists l, s = l ++ lstrip s /\ blank l.
Proof.
  induction s as [|c s (l & Hs & Hl)]; simpl.
  - exists []. split; [done|constructor].
  - destruct (isspace c) eqn:Hc.
    + exists (c :: l). split; [simpl; congruence|by apply Forall_cons].
    + exists []. split; [done|constructor].
Qed.

Lemma lstrip_head s c : head (lstrip s) = Some c -> isspace c = false.
Proof.
  induction s as [|d s IH]; simpl; [done|].
  destruct (isspace d) eqn:Hd; [done|].
  simpl. by intros [= <-].
Qed.

Lemma rstrip_split s : exists r, s = rstrip s ++ r /\ blank r.
Proof.
  destruct (lstrip_split (reverse s)) as (l & Hs & Hl).
  exists (reverse l). split.
  - unfold rstrip. rewrite <- reverse_app, <- Hs. by rewrite reverse_involutive.
  - unfold blank in *. by rewrite Forall_reverse.
Qed.

Lemma rstrip_last s c : last (rstrip s) = Some c -> isspace c = false.
Proof. unfold rstrip. rewrite last_reverse. apply lstrip_head. Qed.

Lemma rstrip_head s c :
  head s = Some c -> isspace c = false -> head (rstrip s) = Some c.
Proof.
  intros Hh Hc. destruct (rstrip_split s) as (r & Hs & Hr).
  destruct (rstrip s) as [|d t] eqn:Ht.
  - simpl in Hs. subst r. destruct s as [|d s]; [done|].
    simpl in Hh. injection Hh as ->.
    apply Forall_cons in Hr as [Hr _]. congruence.
  - rewrite Hs in Hh. simpl in *. done.
Qed.

(** [strip] removes white space, and only white space, from both ends. *)
Lemma strip_trimmed s :
  (exists l r, s = l ++ strip s ++ r /\ blank l /\ blank r) /\
  (forall c, head (strip s) = Some c -> isspace c = false) /\
  (forall c, last (strip s) = Some c -> isspace c = false).
Proof.
  unfold strip. split; [|split].
  - destruct (lstrip_split s) as (l & Hs & Hl).
    destruct (rstrip_split (lstrip s)) as (r & Ht & Hr).
    exists l, r. by rewrite <- Ht.
  - intros c Hc.
    destruct (lstrip s) as [|d t] eqn:Ht; [done|].
    assert (isspace d = false) as Hd by (apply (lstrip_head s); by rewrite Ht).
    rewrite (rstrip_head (d :: t) d eq_refl Hd) in Hc. congruence.
  - apply rstrip_last.
Qed.

Lemma split_first sep s : exists w ws, split sep s = w :: ws.
Proof.
  induction s as [|c s (w & ws & IH)]; simpl; [by eauto|].
  destruct (c =? sep)%N; [by eauto|]. rewrite IH. by eauto.
Qed.

Lemma first_part_split s : first_part (split newline s) = first_line s.
Proof.
  unfold first_part. induction s as [|c s IH]; simpl; [done|].
  destruct (c =? newline)%N; [done|].
  destruct (split_first newline s) as (w & ws & Hs).
  rewrite Hs in *. simpl in *. by rewrite IH.
Qed.
End TextFacts.

(** ** The item normalizer *)

Lemma foldl_snoc_fmap {A B} (h g : A -> B) (l : list A) (acc : list B) :
  (forall x, h x = g x) ->
  foldl (fun lines x => lines ++ [h x]) acc l = acc ++ (g <$> l).
Proof.
  intros Hext. revert acc. induction l as [|x l IH]; intros acc; csimpl.
  - by rewrite app_nil_r.
  - by rewrite IH, Hext, <- app_assoc.
Qed.

Section NormalizerFacts.
Variable dash : str.

(** One item per record, the pull requests first, each group in the order
    it was given. *)
Lemma prep_llm_input_items (prs : list PR) (commits : list Commit) :
  prep_llm_input dash prs commits
  = (item_of_pr dash <$> prs) ++ (item_of_commit <$> commits).
Proof.
  unfold prep_llm_input.
  rewrite (foldl_snoc_fmap
             (fun c => lit "Commit: " ++
                       strip (first_part (split newline (message (commit c)))))
             item_of_commit)
    by (intros c; unfold item_of_commit; by rewrite first_part_split).
  f_equal.
  rewrite (foldl_snoc_fmap
             (fun pr => lit "PR: " ++
                        (if bool_decide (body pr <> []) then title pr ++ dash ++ body pr
                         else title pr))
             (item_of_pr dash)); [done|].
  intros pr. unfold item_of_pr. destruct (body pr); by case_bool_decide.
Qed.

Lemma prep_llm_input_length (prs : list PR) (commits : list Commit) :
  length (prep_llm_input dash prs commits)
  = (length prs + length commits)%nat.
Proof. by rewrite prep_llm_input_items, length_app, !length_fmap. Qed.
End NormalizerFacts.

(** In [multiple_repos_release_notes.py] the normalizer does what the
    specification says: one item per record, ["PR: <title>"] or
    ["PR: <title> — <description>"] for a pull request, ["Commit: "] and the
    trimmed first line for a commit, pull requests first. *)
Lemma multiple_repos_prep_llm_input (prs : list PR) (commits : list Commit) :
  MultipleRepos.prep_llm_input prs commits
  = (item_of_pr [32; 8212; 32]%N <$> prs) ++ (item_of_commit <$> commits)
  /\ length (MultipleRepos.prep_llm_input prs commits)
     = (length prs + length commits)%nat.
Proof.
  split; [apply prep_llm_input_items | apply prep_llm_input_length].
Qed.

(** C8. In [from_prs_release_notes.py] the literal between title and
    description is not the dash: a pull request titled [Add X] and described
    as [desc] is rendered with the three characters U+00E2, U+20AC, U+201D
    where ["PR: Add X — desc"] is expected. *)
Theorem from_prs_prep_llm_input_dash :
  let pr := {| number := 7; title := lit "Add X"; body := lit "desc";
               author := lit "dev"; merged_at := 0; commit_shas := ∅ |} in
  FromPrs.prep_llm_input [pr] []
  = [lit "PR: Add X" ++ [32; 226; 8364; 8221; 32]%N ++ lit "desc"]
  /\ FromPrs.prep_llm_input [pr] [] <> [item_of_pr [32; 8212; 32]%N pr]
  /\ MultipleRepos.prep_llm_input [pr] [] = [item_of_pr [32; 8212; 32]%N pr].
Proof. vm_compute. split; [done|split; [discriminate|done]]. Qed.

(** ** The commit-only fetch *)

Section FetchFacts.
Variable lower : str -> str.

Lemma get_commits_loop (commits : list Commit) (acc : list str) :
  foldl (fun messages c =>
           let msg := strip (message (commit c)) in
           if bool_decide (msg <> []) && negb (startswith (lower msg) (lit "merge"))
           then messages ++ [msg]
           else messages)
        acc commits
  = acc ++ filter (kept lower) ((fun c => strip (message (commit c))) <$> commits).
Proof.
  revert acc. induction commits as [|c commits IH]; intros acc; csimpl.
  - by rewrite app_nil_r.
  - rewrite IH. unfold kept at 2.
    case_bool_decide as Hne; simpl.
    + destruct (startswith _ _) eqn:Hm; simpl.
      * rewrite filter_cons_False; [done|]. intros [_ ?]. congruence.
      * rewrite filter_cons_True by done. by rewrite <- app_assoc.
    + rewrite filter_cons_False; [done|]. by intros [? _].
Qed.

(** C10. The commit-only fetch keeps, in fetch order, the trimmed message
    of every commit whose trimmed message is not empty and does not start,
    whatever the case of its letters, with [merge]; every other commit is
    dropped, so that the result can be shorter than the list fetched. *)
Theorem get_commits_drops_merges (commits : list Commit) :
  FromCommits.get_commits lower commits
  = filter (kept lower) ((fun c => strip (message (commit c))) <$> commits)
  /\ (length (FromCommits.get_commits lower commits) <= length commits)%nat
  /\ exists c, FromCommits.get_commits lower [c] = [].
Proof.
  unfold FromCommits.get_commits. rewrite get_commits_loop. simpl.
  split; [done|split].
  - etrans; [apply length_filter|]. by rewrite length_fmap.
  - exists {| sha := []; commit := {| message := [] |} |}. done.
Qed.
End FetchFacts.

(** A merge commit and a blank one are dropped, the others keep their place. *)
Example get_commits_sample :
  FromCommits.get_commits ascii_lower
    [ {| sha := lit "a1"; commit := {| message := lit "  Fix crash on start " |} |};
      {| sha := lit "b2"; commit := {| message := lit "MERGE branch main" |} |};
      {| sha := lit "c3"; commit := {| message := lit "   " |} |};
      {| sha := lit "d4"; commit := {| message := lit "Add export" |} |} ]
  = [lit "Fix crash on start"; lit "Add export"].
Proof. vm_compute. reflexivity. Qed.

(** ** The aggregator *)

Section AggregatorFacts.
Context {W : Type}.
Variable merge_instruction : str.
Implicit Types (f : list str -> py W str) (w : W).
Implicit Types (items : list str) (chunks calls : list (list str)).

Lemma call_each_length f chunks w w1 (summaries : list str) :
  call_each f chunks w = (w1, Returned summaries) ->
  length summaries = length chunks.
Proof.
  revert w summaries. induction chunks as [|chunk rest IH]; intros w ss; simpl.
  - by intros [= _ <-].
  - destruct (f chunk w) as [w' [s|e]]; [|done].
    destruct (call_each f rest w') as [w2 [ss'|e]] eqn:Hrest; [|done].
    intros [= <- <-]. simpl. f_equal. by eapply IH.
Qed.

(** While the calls return, the loop makes one call per chunk, in chunk
    order, and collects the summaries in that order. *)
Lemma summarize_each_recording f chunks w w1 (summaries acc : list str) calls :
  call_each f chunks w = (w1, Returned summaries) ->
  summarize_each (recording f) chunks acc (w, calls)
  = ((w1, calls ++ chunks), Returned (acc ++ summaries)).
Proof.
  revert w summaries acc calls.
  induction chunks as [|chunk rest IH]; intros w ss acc calls; simpl.
  - intros [= <- <-]. by rewrite !app_nil_r.
  - destruct (f chunk w) as [w' [s|e]] eqn:Hf; [|done].
    destruct (call_each f rest w') as [w2 [ss'|e]] eqn:Hrest; [|done].
    intros [= <- <-]. unfold bind, recording at 1. rewrite Hf.
    rewrite (IH w' ss' (acc ++ [s]) (calls ++ [chunk]) Hrest).
    by rewrite <- !app_assoc.
Qed.

(** With no item at all the aggregator still makes a call: the loop
    yields no summary, the test [len(summaries) == 1] fails, and the merge
    prompt, reduced to its instruction, is sent. *)
Lemma summarize_in_chunks_nil f (chunk_size : Z) w :
  chunk_size <> 0 ->
  summarize_in_chunks merge_instruction [] (recording f) chunk_size (w, [])
  = (let '(w', r) := f [merge_instruction] w in
     ((w', [[merge_instruction]]), r)).
Proof.
  intros Hn. unfold summarize_in_chunks, bind at 1, lift.
  rewrite chunk_list_nil by done.
  unfold bind. cbn [summarize_each ret length Nat.eqb].
  unfold final_prompt. cbn [imap join]. by rewrite app_nil_r.
Qed.

(** C2. For a non-empty list of at most [chunk_size] items, the
    aggregator calls the summarize function exactly once, on the whole
    list, and hands back what that call gave: its summary, or the
    exception it raised. *)
Theorem summarize_in_chunks_single f items (chunk_size : Z) w :
  items <> [] ->
  len items <= chunk_size ->
  summarize_in_chunks merge_instruction items (recording f) chunk_size (w, [])
  = (let '(w', r) := f items w in ((w', [items]), r)).
Proof.
  intros Hne Hle. unfold summarize_in_chunks, bind at 1, lift.
  rewrite (chunk_list_single items chunk_size Hne Hle).
  unfold bind. cbn [summarize_each]. unfold bind, recording.
  destruct (f items w) as [w' [s|e]]; done.
Qed.

(** C3. When the items split into [N > 1] chunks and the per-chunk calls
    return, the aggregator makes [N + 1] calls: one per chunk, in chunk
    order, then one on a one-element list. That element is the merge
    instruction followed by one entry per chunk, entry [k] being summary
    [k] under the label [Batch k+1]. What the last call gives is the
    result. *)
Theorem summarize_in_chunks_merge f items (chunk_size : Z) chunks
    (summaries : list str) w w1 :
  chunk_list items chunk_size = Returned chunks ->
  (1 < length chunks)%nat ->
  call_each f chunks w = (w1, Returned summaries) ->
  exists (labelled : list str) (meta : str),
    meta = merge_instruction ++ join [newline; newline] labelled /\
    length labelled = length chunks /\
    length summaries = length chunks /\
    (forall (k : nat) s,
        summaries !! k = Some s ->
        labelled !! k
        = Some (lit "Batch " ++ str_of_nat (k + 1) ++ lit ":" ++ [newline] ++ s)) /\
    summarize_in_chunks merge_instruction items (recording f) chunk_size (w, [])
    = (let '(w2, r) := f [meta] w1 in ((w2, chunks ++ [[meta]]), r)) /\
    length (chunks ++ [[meta]]) = S (length chunks).
Proof.
  intros Hchunks Hmany Hcalls.
  pose proof (call_each_length _ _ _ _ _ Hcalls) as Hlen.
  eexists _, (final_prompt merge_instruction summaries).
  split; [reflexivity|].
  split; [by rewrite length_imap|].
  split; [done|].
  split.
  { intros k s Hk. by rewrite list_lookup_imap, Hk. }
  split; [|rewrite length_app; simpl; lia].
  unfold summarize_in_chunks, bind at 1, lift. rewrite Hchunks.
  unfold bind at 1.
  rewrite (summarize_each_recording f chunks w w1 summaries [] [] Hcalls).
  rewrite !app_nil_l.
  destruct (Nat.eqb_spec (length summaries) 1) as [Hone|_]; [lia|].
  done.
Qed.
End AggregatorFacts.

Lemma summarize_in_chunks_single_witness :
  [lit "fix login"; lit "add export"] <> [] /\
  len [lit "fix login"; lit "add export"] <= 30 /\
  summarize_in_chunks MultipleRepos.merge_instruction
    [lit "fix login"; lit "add export"] (recording echo) 30 (tt, [])
  = (let '(w', r) := echo [lit "fix login"; lit "add export"] tt in
     ((w', [[lit "fix login"; lit "add export"]]), r)).
Proof.
  split; [discriminate|].
  split; [unfold len; simpl; lia|].
  apply (summarize_in_chunks_single MultipleRepos.merge_instruction echo);
    [discriminate | unfold len; simpl; lia].
Defined.

Lemma summarize_in_chunks_merge_witness :
  exists (labelled : list str) (meta : str),
    meta = MultipleRepos.merge_instruction ++ join [newline; newline] labelled /\
    length labelled = 2%nat /\
    length [lit "ab"; lit "c"] = 2%nat /\
    (forall (k : nat) s,
        [lit "ab"; lit "c"] !! k = Some s ->
        labelled !! k
        = Some (lit "Batch " ++ str_of_nat (k + 1) ++ lit ":" ++ [newline] ++ s)) /\
    summarize_in_chunks MultipleRepos.merge_instruction
      [lit "a"; lit "b"; lit "c"] (recording echo) 2 (tt, [])
    = (let '(w2, r) := echo [meta] tt in
       ((w2, [[lit "a"; lit "b"]; [lit "c"]] ++ [[meta]]), r)) /\
    length ([[lit "a"; lit "b"]; [lit "c"]] ++ [[meta]]) = 3%nat.
Proof.
  apply (summarize_in_chunks_merge MultipleRepos.merge_instruction echo
           [lit "a"; lit "b"; lit "c"] 2 [[lit "a"; lit "b"]; [lit "c"]]
           [lit "ab"; lit "c"] tt tt);
    [reflexivity | simpl; lia | reflexivity].
Defined.

(** The labels are decimal numerals counted from one. *)
Example final_prompt_labels :
  final_prompt [] [lit "x"; lit "y"]
  = lit "Batch 1:" ++ [newline] ++ lit "x" ++ [newline; newline]
    ++ lit "Batch 2:" ++ [newline] ++ lit "y"
  /\ str_of_nat 10 = lit "10".
Proof. vm_compute. done. Qed.

(** The second scenario of the specification: a hundred items of fifty
    characters need chunking and cost five calls, four on the chunks and one
    on the merge prompt. *)
Example hundred_commits_five_calls :
  let items := replicate 100 (replicate 50 120%N) in
  need_chunking items default_max_items default_max_chars = true /\
  match summarize_in_chunks MultipleRepos.merge_instruction items
          (recording echo) default_chunk_size (tt, []) with
  | ((_, calls), Returned _) => length <$> calls = [30; 30; 30; 10; 1]%nat
  | _ => False
  end.
Proof. vm_compute. done. Qed.

(** ** Empty input *)

(** C1, as stated, fails: on the empty list the aggregator calls the
    summarize function and does not answer with the sentinel. *)
Lemma summarize_in_chunks_empty_counterexample :
  ~ (forall f : list str -> py unit str,
        summarize_in_chunks MultipleRepos.merge_instruction [] (recording f)
          default_chunk_size (tt, [])
        = ((tt, []), Returned MultipleRepos.sentinel)).
Proof.
  intros H. specialize (H echo).
  rewrite summarize_in_chunks_nil in H by done. discriminate.
Qed.

(** C2, as stated, fails on the empty list, which is no longer than any
    positive chunk size: the one call made is not on the items. *)
Lemma summarize_in_chunks_single_counterexample :
  ~ (forall (items : list str) (chunk_size : Z),
        len items <= chunk_size ->
        summarize_in_chunks MultipleRepos.merge_instruction items
          (recording echo) chunk_size (tt, [])
        = (let '(w', r) := echo items tt in ((w', [items]), r))).
Proof.
  intros H. specialize (H [] 30 ltac:(unfold len; simpl; lia)).
  rewrite summarize_in_chunks_nil in H by done. discriminate.
Qed.

(** C1. The empty case is settled before the aggregator: [get_release_notes]
    answers an empty list with the sentinel without sending any request, the
    summarization step of the main loop gives that answer on an empty list,
    and [need_chunking] with the default thresholds sends only non-empty
    lists to the aggregator. *)
Theorem release_notes_for_empty {W : Type} (chat : str -> py W str) (w : W) :
  MultipleRepos.get_release_notes (recording chat) [] (w, [])
  = ((w, []), Returned MultipleRepos.sentinel)
  /\ MultipleRepos.release_notes_for (recording chat) [] (w, [])
     = ((w, []), Returned MultipleRepos.sentinel)
  /\ (forall items : list str,
         need_chunking items default_max_items default_max_chars = true ->
         items <> [])
  /\ MultipleRepos.sentinel = lit "No changes found in the selected period.".
Proof.
  split; [done|]. split; [done|]. split; [|done].
  intros items Hneed ->. discriminate.
Qed.

(** ** The first scenario of the specification

    Five pull requests that subsume two commits each and twenty commits, ten
    of them subsumed: ten orphans, fifteen items, no chunking, one request. *)

Example scenario_pipeline :
  let orphans := filter_orphan_commits scenario_commits scenario_prs in
  let items := MultipleRepos.prep_llm_input scenario_prs orphans in
  sha <$> orphans = str_of_nat <$> seq 10 10 /\
  length items = 15%nat /\
  need_chunking items default_max_items default_max_chars = false /\
  match MultipleRepos.release_notes_for
          (recording (fun prompt : str => ret (W := unit) (lit "notes")))
          items (tt, []) with
  | ((_, requests), Returned notes) =>
      length requests = 1%nat /\ notes = lit "notes"
  | _ => False
  end.
Proof. vm_compute. done. Qed.

(** * Further properties of the code *)

(** ** More on chunking *)

Section ChunkMore.
Context {A : Type}.
Implicit Types (L : list A) (n : Z).

Lemma range_length_ceil (stop n : Z) :
  0 < n -> 0 <= stop ->
  Z.of_nat (range_length 0 stop n) = (stop + n - 1) / n.
Proof.
  intros Hn Hstop.
  destruct (range_length_bounds stop n Hn Hstop) as [Hge Hlt].
  set (c := Z.of_nat (range_length 0 stop n)) in *.
  apply (Z.div_unique_pos _ _ c (stop + n - 1 - n * c)); nia.
Qed.

(** The chunks of a list, for a positive size, as an equation to rewrite
    with. *)
Lemma chunk_list_returns L n chunks :
  1 <= n ->
  chunk_list L n = Returned chunks ->
  chunks = (fun k : nat => take (Z.to_nat n) (drop (k * Z.to_nat n) L))
           <$> seq 0 (range_length 0 (len L) n).
Proof.
  intros Hn Hc. rewrite chunk_list_pos in Hc by lia. by injection Hc as <-.
Qed.

(** X1. A list of [len] items is cut into the least number of chunks of
    [n] items that can hold it: [(len + n - 1) / n]. *)
Theorem chunk_list_count L n chunks :
  1 <= n ->
  chunk_list L n = Returned chunks ->
  len chunks = (len L + n - 1) / n.
Proof.
  intros Hn Hc. rewrite (chunk_list_returns L n chunks Hn Hc).
  unfold len at 1. rewrite length_fmap, length_seq.
  apply range_length_ceil; unfold len; lia.
Qed.

Lemma chunk_bounds L n (k : nat) :
  1 <= n ->
  (k < range_length 0 (len L) n)%nat ->
  1 <= len (take (Z.to_nat n) (drop (k * Z.to_nat n) L)) <= n.
Proof.
  intros Hn Hk.
  destruct (range_length_bounds (len L) n ltac:(lia) ltac:(unfold len; lia))
    as [_ Hlt].
  unfold len in *. rewrite length_take, length_drop.
  assert (Z.of_nat (k * Z.to_nat n) = Z.of_nat k * n) as Hkn
    by (rewrite Nat2Z.inj_mul, Z2Nat.id; lia).
  assert (Z.of_nat k * n < Z.of_nat (length L)) by nia.
  lia.
Qed.

(** X2. No chunk is empty and none is longer than the chunk size. *)
Theorem chunk_list_chunks_bounded L n chunks (c : list A) :
  1 <= n ->
  chunk_list L n = Returned chunks ->
  c ∈ chunks ->
  1 <= len c <= n.
Proof.
  intros Hn Hc Hin. rewrite (chunk_list_returns L n chunks Hn Hc) in Hin.
  apply list_elem_of_fmap in Hin as (k & -> & Hk).
  apply elem_of_seq in Hk as [_ Hk]. simpl in Hk.
  by apply chunk_bounds.
Qed.

(** X3. Chunking keeps every item at its place: item [j] of chunk [k] is
    item [k * n + j] of the list. *)
Theorem chunk_list_lookup L n chunks (k j : nat) (c : list A) :
  1 <= n ->
  chunk_list L n = Returned chunks ->
  chunks !! k = Some c ->
  (j < Z.to_nat n)%nat ->
  c !! j = L !! (k * Z.to_nat n + j)%nat.
Proof.
  intros Hn Hc Hk Hj. rewrite (chunk_list_returns L n chunks Hn Hc) in Hk.
  rewrite list_lookup_fmap in Hk.
  destruct (seq 0 _ !! k) as [k'|] eqn:Hseq; [|done].
  apply lookup_seq in Hseq as [-> _]. simpl in Hk. injection Hk as <-.
  by rewrite lookup_take_lt, lookup_drop.
Qed.

(** A chunk size below zero is not rejected: it yields no chunk at all,
    whatever the list; only zero raises. *)
Lemma chunk_list_nonpositive L n :
  n <= 0 ->
  chunk_list L n = if n =? 0 then Raised ValueError else Returned [].
Proof.
  intros Hn. unfold chunk_list, range, range_length.
  destruct (Z.eqb_spec n 0) as [|Hne]; [done|].
  destruct (Z.ltb_spec 0 n); [lia|].
  destruct (Z.ltb_spec (len L) 0) as [Hneg|_]; [unfold len in Hneg; lia|done].
Qed.
End ChunkMore.

(** ** More on the aggregator *)

Section AggregatorCalls.
Context {W : Type}.
Variable merge_instruction : str.
Implicit Types (f : list str -> py W str) (w : W).
Implicit Types (items : list str) (chunks calls : list (list str)).

Lemma summarize_each_call_each f chunks (acc : list str) w :
  summarize_each f chunks acc w
  = match call_each f chunks w with
    | (w1, Returned ss) => (w1, Returned (acc ++ ss))
    | (w1, Raised e) => (w1, Raised e)
    end.
Proof.
  revert acc w. induction chunks as [|chunk rest IH]; intros acc w; simpl.
  - unfold ret. by rewrite app_nil_r.
  - unfold bind. destruct (f chunk w) as [w' [s|e]]; [|done].
    rewrite IH. destruct (call_each f rest w') as [w2 [ss|e]]; [|done].
    by rewrite <- app_assoc.
Qed.

(** The aggregator in terms of the calls on the chunks. *)
Lemma summarize_in_chunks_call_each f items (chunk_size : Z) chunks w :
  chunk_list items chunk_size = Returned chunks ->
  summarize_in_chunks merge_instruction items f chunk_size w
  = match call_each f chunks w with
    | (w1, Returned ss) =>
        if (length ss =? 1)%nat then
          match ss !! 0%nat with
          | Some s => (w1, Returned s)
          | None => (w1, Raised IndexError)
          end
        else f [final_prompt merge_instruction ss] w1
    | (w1, Raised e) => (w1, Raised e)
    end.
Proof.
  intros Hc. unfold summarize_in_chunks, bind at 1, lift. rewrite Hc.
  unfold bind. rewrite summarize_each_call_each.
  destruct (call_each f chunks w) as [w1 [ss|e]]; [|done].
  rewrite app_nil_l. destruct (length ss =? 1)%nat; [|done].
  by destruct (ss !! 0%nat).
Qed.

End AggregatorCalls.

Section AggregatorMore.
Context {W : Type}.
Variable merge_instruction : str.
Implicit Types (f : list str -> py W str) (w : W).
Implicit Types (items : list str) (chunks calls : list (list str)).

(** The calls a recording stub logs while the chunks are gone through, up
    to the first that raises. *)
Lemma call_each_recording_raised f chunks w w1 e calls :
  call_each f chunks w = (w1, Raised e) ->
  exists (k : nat) chunk wk,
    chunks !! k = Some chunk /\
    f chunk wk = (w1, Raised e) /\
    call_each (recording f) chunks (w, calls)
    = ((w1, calls ++ take (S k) chunks), Raised e).
Proof.
  revert w calls.
  induction chunks as [|chunk rest IH]; intros w calls Hcalls; [done|].
  cbn [call_each] in Hcalls |- *.
  destruct (f chunk w) as [w' [s|e']] eqn:Hf.
  - destruct (call_each f rest w') as [w2 [ss|e'']] eqn:Hrest; [done|].
    injection Hcalls as -> ->.
    destruct (IH w' (calls ++ [chunk]) Hrest) as (k & c & wk & Hk & Hfk & Hrec).
    exists (S k), c, wk. split; [done|]. split; [done|].
    unfold recording at 1. rewrite Hf, Hrec.
    by rewrite <- app_assoc.
  - injection Hcalls as -> ->. exists 0%nat, chunk, w.
    split; [done|]. split; [done|].
    unfold recording. by rewrite Hf.
Qed.

(** X4. When the call on some chunk raises, the aggregation stops there: the
    chunks before it have been summarized, no later chunk is, no merge
    call is made, and the exception is the outcome. *)
Theorem summarize_in_chunks_aborts f items (chunk_size : Z) chunks w w1 e :
  chunk_list items chunk_size = Returned chunks ->
  call_each f chunks w = (w1, Raised e) ->
  exists (k : nat) chunk wk,
    chunks !! k = Some chunk /\
    f chunk wk = (w1, Raised e) /\
    summarize_in_chunks merge_instruction items (recording f) chunk_size (w, [])
    = ((w1, take (S k) chunks), Raised e).
Proof.
  intros Hc Hcalls.
  destruct (call_each_recording_raised f chunks w w1 e [] Hcalls)
    as (k & chunk & wk & Hk & Hf & Hrec).
  exists k, chunk, wk. split; [done|]. split; [done|].
  by rewrite (summarize_in_chunks_call_each _ _ _ _ chunks _ Hc), Hrec.
Qed.

Lemma call_each_Forall (P : str -> Prop) f chunks w w1 (ss : list str) :
  (forall x w0 w' s, f x w0 = (w', Returned s) -> P s) ->
  call_each f chunks w = (w1, Returned ss) ->
  Forall P ss.
Proof.
  intros HP. revert w ss.
  induction chunks as [|chunk rest IH]; intros w ss; simpl.
  - intros [= _ <-]. constructor.
  - destruct (f chunk w) as [w' [s|e]] eqn:Hf; [|done].
    destruct (call_each f rest w') as [w2 [ss'|e]] eqn:Hrest; [|done].
    intros [= <- <-]. constructor; [exact (HP _ _ _ _ Hf)|exact (IH _ _ Hrest)].
Qed.

Lemma summarize_in_chunks_invariant (P : str -> Prop) f items (chunk_size : Z)
    w w' (notes : str) :
  (forall x w0 w1 s, f x w0 = (w1, Returned s) -> P s) ->
  summarize_in_chunks merge_instruction items f chunk_size w
  = (w', Returned notes) ->
  P notes.
Proof.
  intros HP. destruct (chunk_list items chunk_size) as [chunks|e] eqn:Hc.
  - rewrite (summarize_in_chunks_call_each _ _ _ _ chunks _ Hc).
    destruct (call_each f chunks w) as [w1 [ss|e]] eqn:Hcalls; [|done].
    pose proof (call_each_Forall P f chunks w w1 ss HP Hcalls) as Hall.
    destruct (length ss =? 1)%nat.
    + destruct (ss !! 0%nat) as [s|] eqn:Hs; [|done].
      intros [= _ <-]. by eapply Forall_lookup_1.
    + apply HP.
  - unfold summarize_in_chunks, bind, lift. by rewrite Hc.
Qed.

(** X5. The aggregator writes no text of its own into its result: whatever
    it returns was returned by a call of the summarize function, so that
    any property of all the summaries of that function holds of the
    result. *)
Theorem summarize_in_chunks_result (P : str -> Prop) f items (chunk_size : Z)
    w w' (notes : str) :
  (forall x w0 w1 s, f x w0 = (w1, Returned s) -> P s) ->
  summarize_in_chunks merge_instruction items f chunk_size w
  = (w', Returned notes) ->
  P notes.
Proof. apply summarize_in_chunks_invariant. Qed.

(** X6. A chunk size below zero makes the aggregator drop every item: no
    chunk is summarized and the one call made is on the merge instruction
    alone. A chunk size of zero raises [ValueError] before any call. *)
Theorem summarize_in_chunks_nonpositive f items w :
  (forall chunk_size : Z,
      chunk_size < 0 ->
      summarize_in_chunks merge_instruction items (recording f) chunk_size (w, [])
      = (let '(w', r) := f [merge_instruction] w in
         ((w', [[merge_instruction]]), r))) /\
  summarize_in_chunks merge_instruction items (recording f) 0 (w, [])
  = ((w, []), Raised ValueError).
Proof.
  split.
  - intros n Hn.
    rewrite (summarize_in_chunks_call_each _ _ _ _ []).
    + cbn [call_each length Nat.eqb]. unfold final_prompt. cbn [imap join].
      by rewrite app_nil_r.
    + rewrite chunk_list_nonpositive by lia.
      by destruct (Z.eqb_spec n 0); [lia|].
  - unfold summarize_in_chunks, bind, lift.
    by rewrite (chunk_list_nonpositive items 0).
Qed.
End AggregatorMore.

(** ** More on the planner *)

Section PlannerMore.
Implicit Types (items more : list str).

(** X7. Further items never make a change set fit again: once chunking is
    needed, it stays needed whatever is appended. *)
Theorem need_chunking_app items more (max_items max_chars : Z) :
  need_chunking items max_items max_chars = true ->
  need_chunking (items ++ more) max_items max_chars = true.
Proof.
  intros Hneed.
  apply (proj1 (need_chunking_threshold _ _ _)) in Hneed.
  apply (proj1 (need_chunking_threshold _ _ _)).
  unfold len in *. rewrite fmap_app, sum_list_with_app, length_app. lia.
Qed.

(** X8. The answer of the planner does not depend on the order of the
    items. *)
Theorem need_chunking_permutation items more (max_items max_chars : Z) :
  items ≡ₚ more ->
  need_chunking items max_items max_chars
  = need_chunking more max_items max_chars.
Proof.
  intros Hperm. unfold need_chunking, len.
  rewrite !total_len_sum.
  by rewrite (Permutation_length Hperm), (fmap_Permutation length _ _ Hperm).
Qed.
End PlannerMore.

(** ** More on texts *)

Section TextMore.
Implicit Types (s p : str) (sep c : N).

Lemma trimmed_strip s : trimmed (strip s).
Proof. destruct (strip_trimmed s) as (_ & Hh & Hl). by split. Qed.

Lemma elem_of_strip s c : c ∈ strip s -> c ∈ s.
Proof.
  destruct (strip_trimmed s) as ((l & r & Hs & _) & _).
  intros Hc. rewrite Hs, !elem_of_app. tauto.
Qed.

Lemma lstrip_id s :
  (forall c, head s = Some c -> isspace c = false) -> lstrip s = s.
Proof.
  destruct s as [|c s]; [done|]. intros Hh. simpl.
  by rewrite (Hh c eq_refl).
Qed.

Lemma strip_id s : trimmed s -> strip s = s.
Proof.
  intros [Hh Hl]. unfold strip, rstrip. rewrite (lstrip_id s Hh).
  rewrite lstrip_id; [apply reverse_involutive|].
  intros c. rewrite head_reverse. apply Hl.
Qed.

Lemma single_line_first_line s : single_line (first_line s).
Proof.
  unfold single_line.
  induction s as [|c s IH]; simpl; [apply not_elem_of_nil|].
  destruct (N.eqb_spec c newline); [apply not_elem_of_nil|].
  rewrite not_elem_of_cons. by split.
Qed.

Lemma split_no_sep sep s : sep ∉ s -> split sep s = [s].
Proof.
  induction s as [|c s IH]; simpl; [done|].
  rewrite not_elem_of_cons. intros [Hne Hs].
  destruct (N.eqb_spec c sep); [congruence|]. by rewrite IH.
Qed.

Lemma split_app_sep sep p s :
  sep ∉ p -> split sep (p ++ sep :: s) = p :: split sep s.
Proof.
  induction p as [|c p IH]; simpl.
  - intros _. by rewrite N.eqb_refl.
  - rewrite not_elem_of_cons. intros [Hne Hp].
    destruct (N.eqb_spec c sep); [congruence|]. by rewrite IH.
Qed.

(** Splitting at a separator undoes joining with it, for parts that do not
    hold it. *)
Lemma split_join sep (parts : list str) :
  parts <> [] ->
  Forall (fun p => sep ∉ p) parts ->
  split sep (join [sep] parts) = parts.
Proof.
  induction parts as [|p [|q rest] IH]; [done| |].
  - intros _ Hall. apply Forall_cons in Hall as [Hp _].
    simpl. by apply split_no_sep.
  - intros _ Hall. apply Forall_cons in Hall as [Hp Hrest].
    change (split sep (p ++ sep :: join [sep] (q :: rest)) = p :: q :: rest).
    rewrite split_app_sep by done.
    by rewrite IH.
Qed.

End TextMore.

(** ** The summarizer adapter and the summarization step *)

Lemma sentinel_trimmed : trimmed MultipleRepos.sentinel.
Proof.
  split; intros c Hc; vm_compute in Hc; injection Hc as <-; reflexivity.
Qed.

Section AdapterFacts.
Context {W : Type}.
Variable chat : str -> py W str.
Implicit Types (items : list str) (w : W) (requests : list str).

Lemma get_release_notes_trimmed items w w' (notes : str) :
  MultipleRepos.get_release_notes chat items w = (w', Returned notes) ->
  trimmed notes.
Proof.
  unfold MultipleRepos.get_release_notes. case_bool_decide.
  - intros [= _ <-]. apply sentinel_trimmed.
  - unfold bind. destruct (chat _ w) as [w1 [content|e]]; [|done].
    intros [= _ <-]. apply trimmed_strip.
Qed.

(** X9. Whichever way the summarization step goes (one request, or chunks
    and a merge), the release notes it returns neither start nor end with
    white space. *)
Theorem release_notes_for_trimmed items w w' (notes : str) :
  MultipleRepos.release_notes_for chat items w = (w', Returned notes) ->
  trimmed notes.
Proof.
  unfold MultipleRepos.release_notes_for, MultipleRepos.summarize_in_chunks.
  destruct (need_chunking _ _ _).
  - apply (summarize_in_chunks_invariant _ trimmed).
    intros x w0 w1 s. apply get_release_notes_trimmed.
  - apply get_release_notes_trimmed.
Qed.

(** What [get_release_notes] does with a non-empty list: one request, the
    answer trimmed, an exception handed on. *)
Lemma get_release_notes_request items w requests :
  items <> [] ->
  MultipleRepos.get_release_notes (recording chat) items (w, requests)
  = (let prompt :=
       MultipleRepos.instruction ++ lit "Changes:" ++ [newline] ++
       join [newline] ((fun item => lit "- " ++ item) <$> items) in
     match chat prompt w with
     | (w', Returned content) => ((w', requests ++ [prompt]), Returned (strip content))
     | (w', Raised e) => ((w', requests ++ [prompt]), Raised e)
     end).
Proof.
  intros Hne. unfold MultipleRepos.get_release_notes.
  case_bool_decide; [done|].
  unfold bind, recording.
  by destruct (chat _ w) as [w' [content|e]].
Qed.

(** X10. For a non-empty list of one-line items, [get_release_notes] sends
    exactly one request; what follows the heading [Changes:] in its prompt
    reads back, line by line, as the items in order, each after a dash. *)
Theorem get_release_notes_prompt items w :
  items <> [] ->
  Forall single_line items ->
  exists changes prompt w' r,
    MultipleRepos.get_release_notes (recording chat) items (w, [])
    = ((w', [prompt]), r) /\
    prompt = MultipleRepos.instruction ++ lit "Changes:" ++ [newline] ++ changes /\
    split newline changes = (fun item => lit "- " ++ item) <$> items.
Proof.
  intros Hne Hlines.
  exists (join [newline] ((fun item => lit "- " ++ item) <$> items)).
  rewrite get_release_notes_request by done. cbv zeta.
  destruct (chat _ w) as [w' [content|e]] eqn:Hchat;
    (eexists _, w', _; split; [reflexivity|]; split; [reflexivity|]);
    (apply split_join; [by destruct items|]);
    (apply Forall_fmap; eapply Forall_impl; [exact Hlines|]);
    intros item Hitem; unfold single_line in *; simpl;
    by rewrite !not_elem_of_cons.
Qed.
End AdapterFacts.

(** ** How many requests the summarization step sends *)

Section RequestCount.
Context {W : Type}.
Variable chat : str -> py W str.
Hypothesis chat_returns : forall p w, exists w' s, chat p w = (w', Returned s).
Implicit Types (items : list str) (w : W) (requests : list str).

Lemma get_release_notes_returns items w requests :
  items <> [] ->
  exists w' s p,
    MultipleRepos.get_release_notes (recording chat) items (w, requests)
    = ((w', requests ++ [p]), Returned s).
Proof.
  intros Hne. rewrite get_release_notes_request by done. cbv zeta.
  destruct (chat_returns
              (MultipleRepos.instruction ++ lit "Changes:" ++ [newline] ++
               join [newline] ((fun item => lit "- " ++ item) <$> items)) w)
    as (w' & s & ->).
  by eexists _, _, _.
Qed.

Lemma call_each_get_release_notes (chunks : list (list str)) w requests :
  Forall (fun c => c <> []) chunks ->
  exists w1 (ss : list str) more,
    call_each (MultipleRepos.get_release_notes (recording chat)) chunks
      (w, requests)
    = ((w1, requests ++ more), Returned ss) /\
    length more = length chunks /\ length ss = length chunks.
Proof.
  revert w requests.
  induction chunks as [|chunk rest IH]; intros w requests Hall.
  - exists w, [], []. by rewrite app_nil_r.
  - apply Forall_cons in Hall as [Hne Hrest].
    destruct (get_release_notes_returns chunk w requests Hne) as (w' & s & p & Hc).
    destruct (IH w' (requests ++ [p]) Hrest) as (w1 & ss & more & Hcalls & Hm & Hs).
    exists w1, (s :: ss), (p :: more). cbn [call_each].
    rewrite Hc, Hcalls. rewrite <- app_assoc. simpl. by rewrite Hm, Hs.
Qed.

(** X11. With a provider that always answers, the summarization step
    returns, and the number of requests it has sent is: none for an empty
    list; one when no chunking is needed, or when the items fit in one
    chunk; otherwise one per chunk of thirty items and one for the merge. *)
Theorem release_notes_for_requests items w :
  exists w' requests (notes : str),
    MultipleRepos.release_notes_for (recording chat) items (w, [])
    = ((w', requests), Returned notes) /\
    len requests
    = if bool_decide (items = []) then 0
      else if need_chunking items default_max_items default_max_chars
              && (default_chunk_size <? len items)
           then (len items + 29) / 30 + 1
           else 1.
Proof.
  case_bool_decide as Hitems.
  { subst items. by exists w, [], MultipleRepos.sentinel. }
  unfold MultipleRepos.release_notes_for, MultipleRepos.summarize_in_chunks.
  destruct (need_chunking items default_max_items default_max_chars); simpl andb.
  - unfold default_chunk_size.
    destruct (Z.ltb_spec 30 (len items)) as [Hlong|Hshort].
    + rewrite (summarize_in_chunks_call_each _ _ _ _ _ _
                 (chunk_list_pos items 30 ltac:(lia))).
      set (chunks := (_ <$> seq 0 (range_length 0 (len items) 30))).
      assert (Forall (fun c : list str => c <> []) chunks) as Hall.
      { apply Forall_fmap, Forall_forall. intros k Hk.
        apply elem_of_seq in Hk as [_ Hk].
        pose proof (chunk_bounds items 30 k ltac:(lia) ltac:(lia)) as Hb.
        cbv beta. intros Heq. rewrite Heq in Hb. by destruct Hb. }
      destruct (call_each_get_release_notes chunks w [] Hall)
        as (w1 & ss & more & -> & Hm & Hs).
      assert (Z.of_nat (length chunks) = (len items + 29) / 30) as Hcount.
      { unfold chunks. rewrite length_fmap, length_seq.
        rewrite range_length_ceil by (unfold len; lia). f_equal. lia. }
      assert (2 <= (len items + 29) / 30)
        by (apply Z.div_le_lower_bound; lia).
      destruct (Nat.eqb_spec (length ss) 1) as [Hone|_]; [lia|].
      destruct (get_release_notes_returns
                  [final_prompt MultipleRepos.merge_instruction ss] w1
                  ([] ++ more) ltac:(done))
        as (w' & s & p & ->).
      exists w', (([] ++ more) ++ [p]), s. split; [done|].
      unfold len at 1. rewrite length_app, length_app. simpl. lia.
    + rewrite (summarize_in_chunks_call_each _ _ _ _ _ _
                 (chunk_list_single items 30 Hitems Hshort)).
      destruct (call_each_get_release_notes [items] w [])
        as (w1 & ss & more & -> & Hm & Hs); [by constructor|].
      simpl in Hm, Hs. rewrite Hs. simpl.
      destruct ss as [|s [|? ?]]; try done. simpl.
      exists w1, ([] ++ more), s. split; [done|].
      unfold len. rewrite length_app, Hm. done.
  - destruct (get_release_notes_returns items w [] Hitems) as (w' & s & p & ->).
    by exists w', ([] ++ [p]), s.
Qed.
End RequestCount.

(** ** The pull-request fetch *)

Section MergedPrs.
Variables since_dt until_dt : Z.
Implicit Types (pulls : list PullRequest.t) (pull : PullRequest.t) (p : PR).

Lemma get_merged_prs_loop pulls (acc : list PR) :
  foldl (fun prs pr =>
           match PullRequest.merged_at pr with
           | None => prs
           | Some merged =>
               if negb ((since_dt <=? merged) && (merged <=? until_dt)) then prs
               else
                 let shas := sha <$> PullRequest.get_commits pr in
                 prs ++ [{| number := PullRequest.number pr;
                            title := strip (PullRequest.title pr);
                            body := strip (first_part (split newline
                                      (default [] (PullRequest.body pr))));
                            author := PullRequest.login (PullRequest.user pr);
                            merged_at := merged;
                            commit_shas := list_to_set shas |}]
           end)
        acc pulls
  = acc ++ omap (fun pull =>
                   match PullRequest.merged_at pull with
                   | Some merged =>
                       if decide (merged_within since_dt until_dt pull)
                       then Some (pr_of_pull pull merged) else None
                   | None => None
                   end) pulls.
Proof.
  revert acc. induction pulls as [|pull pulls IH]; intros acc; csimpl.
  - by rewrite app_nil_r.
  - rewrite IH.
    destruct (PullRequest.merged_at pull) as [merged|] eqn:Hm; [|done].
    case_decide as Hw; unfold merged_within in Hw; rewrite Hm in Hw;
      destruct (Z.leb_spec since_dt merged), (Z.leb_spec merged until_dt);
      simpl; try lia; try done.
    rewrite <- app_assoc. simpl. unfold pr_of_pull.
    by rewrite first_part_split.
Qed.

(** The loop keeps, in order, the pull requests merged within the window. *)
Lemma get_merged_prs_omap pulls :
  get_merged_prs pulls since_dt until_dt
  = omap (fun pull =>
            match PullRequest.merged_at pull with
            | Some merged =>
                if decide (merged_within since_dt until_dt pull)
                then Some (pr_of_pull pull merged) else None
            | None => None
            end) pulls.
Proof. unfold get_merged_prs. by rewrite get_merged_prs_loop. Qed.

Lemma elem_of_get_merged_prs pulls p :
  p ∈ get_merged_prs pulls since_dt until_dt
  <-> exists pull merged,
        pull ∈ pulls /\ PullRequest.merged_at pull = Some merged /\
        since_dt <= merged <= until_dt /\ p = pr_of_pull pull merged.
Proof.
  rewrite get_merged_prs_omap, list_elem_of_omap. split.
  - intros (pull & Hin & Hp).
    destruct (PullRequest.merged_at pull) as [merged|] eqn:Hm; [|done].
    case_decide as Hw; [|done]. injection Hp as <-.
    unfold merged_within in Hw. rewrite Hm in Hw. by exists pull, merged.
  - intros (pull & merged & Hin & Hm & Hw & ->). exists pull. split; [done|].
    rewrite Hm. rewrite decide_True; [done|].
    unfold merged_within. by rewrite Hm.
Qed.


(** X13. The fetch drops the pull requests that were closed without a merge
    or merged outside the window, and nothing else: what it returns are the
    others, in the order of the listing. *)
Theorem get_merged_prs_complete pulls :
  number <$> get_merged_prs pulls since_dt until_dt
  = PullRequest.number <$> filter (merged_within since_dt until_dt) pulls.
Proof.
  rewrite get_merged_prs_omap.
  induction pulls as [|pull pulls IH]; [done|]. csimpl.
  destruct (decide (merged_within since_dt until_dt pull)) as [Hw|Hw].
  - rewrite filter_cons_True by done. unfold merged_within in Hw.
    destruct (PullRequest.merged_at pull) as [merged|]; [|done].
    csimpl. by rewrite IH.
  - rewrite filter_cons_False by done.
    by destruct (PullRequest.merged_at pull).
Qed.

(** X14. After the fetch and the deduplication, the orphan commits are
    exactly the commits that are part of no pull request merged within the
    window. *)
Theorem orphans_of_merged_prs pulls (C : list Commit) (c : Commit) :
  c ∈ filter_orphan_commits C (get_merged_prs pulls since_dt until_dt)
  <-> c ∈ C /\
      forall pull,
        pull ∈ pulls -> merged_within since_dt until_dt pull ->
        sha c ∉ sha <$> PullRequest.get_commits pull.
Proof.
  rewrite filter_orphan_commits_filter, list_elem_of_filter, elem_of_union_list.
  split.
  - intros [Hn Hc]. split; [done|]. intros pull Hin Hw Hsha. apply Hn.
    unfold merged_within in Hw.
    destruct (PullRequest.merged_at pull) as [merged|] eqn:Hm; [|done].
    exists (commit_shas (pr_of_pull pull merged)). split.
    + apply list_elem_of_fmap. exists (pr_of_pull pull merged). split; [done|].
      apply elem_of_get_merged_prs. by exists pull, merged.
    + simpl. by apply elem_of_list_to_set.
  - intros [Hc Hall]. split; [|done]. intros (X & HX & Hsha).
    apply list_elem_of_fmap in HX as (p & -> & Hp).
    apply elem_of_get_merged_prs in Hp as (pull & merged & Hin & Hm & Hw & ->).
    simpl in Hsha. apply elem_of_list_to_set in Hsha.
    apply (Hall pull Hin); [|done]. unfold merged_within. by rewrite Hm.
Qed.
End MergedPrs.

(** ** The repository prompt *)

Section SplitMore.
Implicit Types (s w : str) (sep c : N).

Lemma elem_of_split_part sep s w c : w ∈ split sep s -> c ∈ w -> c ∈ s.
Proof.
  revert w. induction s as [|d s IH]; intros w; simpl.
  - rewrite list_elem_of_singleton. intros -> Hc. exact Hc.
  - destruct (N.eqb_spec d sep) as [->|Hne].
    + rewrite elem_of_cons. intros [->|Hw] Hc.
      * by apply not_elem_of_nil in Hc.
      * apply elem_of_cons. right. by apply (IH w).
    + destruct (split sep s) as [|v vs] eqn:Hs.
      * rewrite list_elem_of_singleton. intros -> Hc.
        apply list_elem_of_singleton in Hc as ->. by left.
      * rewrite elem_of_cons. intros [->|Hw] Hc.
        -- apply elem_of_cons in Hc as [->|Hc]; [by left|].
           apply elem_of_cons. right. apply (IH v); [by left|done].
        -- apply elem_of_cons. right. apply (IH w); [by right|done].
Qed.

Lemma strip_blank s : blank s -> strip s = [].
Proof.
  intros Hb. unfold strip.
  assert (lstrip s = []) as ->; [|done].
  induction Hb as [|c s Hc _ IH]; simpl; [done|]. by rewrite Hc.
Qed.

Lemma strip_space s : strip (32%N :: s) = strip s.
Proof. done. Qed.

Lemma split_comma_join (items : list str) :
  Forall (fun i => comma ∉ i) items ->
  split comma (join (lit ", ") items)
  = match items with
    | [] => [[]]
    | i :: rest => i :: (cons 32%N <$> rest)
    end.
Proof.
  induction items as [|i [|j rest] IH]; intros Hall; [done| |].
  - apply Forall_cons in Hall as [Hi _]. simpl. by apply split_no_sep.
  - apply Forall_cons in Hall as [Hi Hrest].
    change (join (lit ", ") (i :: j :: rest))
      with (i ++ comma :: 32%N :: join (lit ", ") (j :: rest)).
    rewrite split_app_sep by done.
    cbn [split]. change (32 =? comma)%N with false. cbv iota.
    by rewrite (IH Hrest).
Qed.
End SplitMore.

Section PromptFacts.
Context {W : Type}.
Variable input : str -> py W str.
Implicit Types (typed prompt : str) (repos default_list : list Repo) (w : W).

Lemma prompt_for_list_typed prompt default_list typed w w' :
  input (prompt_text prompt default_list) w = (w', Returned typed) ->
  prompt_for_list input prompt default_list w
  = (w', Returned
           (if bool_decide (strip typed = []) then default_list
            else if bool_decide (parse_entries (split comma (strip typed)) [] <> [])
                 then parse_entries (split comma (strip typed)) []
                 else default_list)).
Proof.
  intros Hin. unfold prompt_for_list, bind. rewrite Hin.
  by case_bool_decide.
Qed.
End PromptFacts.

Section EntryFacts.
Implicit Types (entries : list str) (out repos : list Repo) (r : Repo).

Lemma parse_entries_no_slash entries out :
  Forall (fun item => slash ∉ item) entries ->
  parse_entries entries out = out.
Proof.
  unfold parse_entries. revert out.
  induction entries as [|item entries IH]; intros out Hall; [done|].
  apply Forall_cons in Hall as [Hitem Hrest]. cbn [foldl].
  rewrite split_no_sep; [by apply IH|].
  intros Hs. by apply elem_of_strip in Hs.
Qed.


Lemma parse_entries_formatted entries repos out :
  Forall2 (fun item r => strip item = owner r ++ slash :: name r) entries repos ->
  Forall (fun r => (slash ∉ owner r) /\ (slash ∉ name r)) repos ->
  parse_entries entries out = out ++ repos.
Proof.
  unfold parse_entries. intros Hfmt. revert out.
  induction Hfmt as [|item r entries repos Hitem _ IH]; intros out Hfree.
  - by rewrite app_nil_r.
  - apply Forall_cons in Hfree as [[Ho Hn] Hfree]. cbn [foldl].
    rewrite Hitem, split_app_sep, split_no_sep by done. simpl.
    rewrite IH by done. rewrite <- app_assoc. by destruct r.
Qed.

Lemma formatted_trimmed r :
  plain_repo r -> trimmed (owner r ++ slash :: name r).
Proof.
  intros (_ & Hh & Hl). split; intros c.
  - destruct (owner r) as [|d o]; simpl.
    + by intros [= <-].
    + intros [= <-]. by apply Hh.
  - rewrite last_app. destruct (name r) as [|d n] eqn:Hn.
    + simpl. by intros [= <-].
    + rewrite last_cons. destruct (last (d :: n)) as [e|] eqn:He.
      * intros [= <-]. by apply Hl.
      * by intros [= <-].
Qed.

Lemma join_nonempty (sep : str) (items : list str) :
  Forall (fun i => i <> []) items -> items <> [] -> join sep items <> [].
Proof.
  destruct items as [|i [|j rest]]; [done| |].
  - intros Hall _. by apply Forall_cons in Hall as [? _].
  - intros Hall _. apply Forall_cons in Hall as [Hi _].
    change (join sep (i :: j :: rest)) with (i ++ sep ++ join sep (j :: rest)).
    by destruct i.
Qed.

Lemma join_trimmed (sep : str) (items : list str) :
  Forall (fun i => i <> [] /\ trimmed i) items ->
  trimmed (join sep items).
Proof.
  induction items as [|i [|j rest] IH]; intros Hall.
  - by split.
  - by apply Forall_cons in Hall as [[_ ?] _].
  - apply Forall_cons in Hall as [[Hi [Hh Hl]] Hrest].
    change (join sep (i :: j :: rest)) with (i ++ sep ++ join sep (j :: rest)).
    destruct (IH Hrest) as [_ IHl].
    split; intros c.
    + destruct i as [|d i]; [done|]. simpl. apply Hh.
    + rewrite app_assoc, last_app.
      destruct (last (join sep (j :: rest))) as [e|] eqn:He.
      * intros [= <-]. by apply IHl.
      * apply last_None in He. exfalso. revert He. apply join_nonempty; [|done].
        eapply Forall_impl; [exact Hrest|]. by intros ? [? _].
Qed.
End EntryFacts.

Section PromptTheorems.
Context {W : Type}.
Variable input : str -> py W str.
Implicit Types (typed prompt : str) (repos default_list : list Repo) (w : W).

(** X15. A line without any slash (a blank line among them) names no
    repository: the default list is returned. *)
Theorem prompt_for_list_no_slash prompt default_list typed w w' :
  input (prompt_text prompt default_list) w = (w', Returned typed) ->
  slash ∉ typed ->
  prompt_for_list input prompt default_list w = (w', Returned default_list).
Proof.
  intros Hin Hfree. rewrite (prompt_for_list_typed _ _ _ typed w w' Hin).
  case_bool_decide; [done|].
  rewrite parse_entries_no_slash; [by rewrite bool_decide_false by auto|].
  apply Forall_forall. intros item Hitem Hs.
  apply Hfree, elem_of_strip. by apply (elem_of_split_part comma _ item).
Qed.


(** X17. The prompt reads back what it shows: typing a non-empty list of
    plain entries the way the prompt displays its default (entries as
    [owner/name], separated by a comma and a space) returns that list. *)
Theorem prompt_for_list_round_trip prompt default_list repos w w' :
  repos <> [] ->
  Forall plain_repo repos ->
  input (prompt_text prompt default_list) w
  = (w', Returned (default_str repos)) ->
  prompt_for_list input prompt default_list w = (w', Returned repos).
Proof.
  intros Hne Hplain Hin.
  rewrite (prompt_for_list_typed _ _ _ _ w w' Hin).
  set (items := (fun r => owner r ++ [slash] ++ name r) <$> repos).
  assert (Forall (fun i : str => i <> [] /\ trimmed i) items) as Hitems.
  { apply Forall_fmap. eapply Forall_impl; [exact Hplain|].
    intros r Hr. split; [by destruct (owner r)|by apply formatted_trimmed]. }
  assert (Forall (fun i : str => comma ∉ i) items) as Hcomma.
  { apply Forall_fmap. eapply Forall_impl; [exact Hplain|].
    intros r ((_ & _ & Ho & Hn) & _). simpl.
    rewrite elem_of_app, elem_of_cons. intros [?|[?|?]]; done. }
  assert (strip (default_str repos) = default_str repos) as ->
    by (apply strip_id, join_trimmed, Hitems).
  rewrite bool_decide_false.
  2:{ apply join_nonempty; [|by destruct repos].
      eapply Forall_impl; [exact Hitems|]. by intros ? [? _]. }
  unfold default_str. fold items. rewrite (split_comma_join items Hcomma).
  assert (parse_entries
            match items with
            | [] => [[]]
            | i :: rest => i :: (cons 32%N <$> rest)
            end [] = repos) as ->; [|by rewrite bool_decide_true].
  rewrite (parse_entries_formatted _ repos []).
  - done.
  - unfold items. destruct repos as [|r rest]; [done|]. csimpl.
    apply Forall_cons in Hplain as [Hr Hrest]. constructor.
    + by apply strip_id, formatted_trimmed.
    + apply Forall2_fmap_l, Forall2_fmap_l, Forall_Forall2_diag.
      eapply Forall_impl; [exact Hrest|]. intros r' Hr'. simpl.
      rewrite strip_space. by apply strip_id, (formatted_trimmed r').
  - eapply Forall_impl; [exact Hplain|]. by intros r ((? & ? & _) & _).
Qed.
End PromptTheorems.

(** ** More on the items *)

Section ItemFacts.
Variable dash : str.
Implicit Types (prs : list PR) (commits : list Commit).

Lemma single_line_app (s t : str) :
  single_line s -> single_line t -> single_line (s ++ t).
Proof. unfold single_line. rewrite elem_of_app. tauto. Qed.

Lemma single_line_strip (s : str) : single_line s -> single_line (strip s).
Proof. unfold single_line. intros Hs Hc. by apply Hs, elem_of_strip. Qed.

(** X18. Every item is one line, provided the titles and descriptions of
    the pull requests and the dash are: the item of a commit never holds a
    line feed, whatever its message. *)
Theorem prep_llm_input_single_lines prs commits :
  single_line dash ->
  Forall (fun pr => single_line (title pr) /\ single_line (body pr)) prs ->
  Forall single_line (prep_llm_input dash prs commits).
Proof.
  intros Hdash Hprs. rewrite prep_llm_input_items. apply Forall_app. split.
  - apply Forall_fmap. eapply Forall_impl; [exact Hprs|].
    intros pr [Ht Hb]. unfold compose, item_of_pr. cbv beta.
    assert (single_line (lit "PR: ")) as Hlit
      by (apply (bool_decide_unpack _); by vm_compute).
    destruct (body pr); repeat apply single_line_app; done.
  - apply Forall_fmap, Forall_forall. intros c _.
    unfold compose, item_of_commit. cbv beta.
    apply single_line_app.
    + apply (bool_decide_unpack _). by vm_compute.
    + apply single_line_strip, single_line_first_line.
Qed.

(** X19. Deduplication followed by normalization gives the items of the
    pull requests, then one item for each commit that no pull request
    subsumes and none for the others. *)
Theorem prep_llm_input_of_orphans prs commits :
  prep_llm_input dash prs (filter_orphan_commits commits prs)
  = (item_of_pr dash <$> prs)
    ++ (item_of_commit
        <$> filter (fun c => sha c ∉ ⋃ (commit_shas <$> prs)) commits).
Proof. by rewrite prep_llm_input_items, filter_orphan_commits_filter. Qed.
End ItemFacts.

(** ** More on the commit-only fetch *)

(** X20. Every message the commit-only fetch returns is non-empty, carries
    no white space at either end and does not start with [merge] once
    lower-cased. *)
Theorem get_commits_messages (lower : str -> str) (commits : list Commit)
    (msg : str) :
  msg ∈ FromCommits.get_commits lower commits ->
  msg <> [] /\ trimmed msg /\ startswith (lower msg) (lit "merge") = false.
Proof.
  unfold FromCommits.get_commits. rewrite get_commits_loop, app_nil_l.
  rewrite list_elem_of_filter, list_elem_of_fmap.
  intros [[Hne Hm] (c & -> & _)].
  split; [done|]. split; [apply trimmed_strip|done].
Qed.

(** ** Instances of the properties above *)

Lemma chunk_list_count_witness :
  len [[1; 2; 3]; [4; 5; 6]; [7]]%nat = (len [1; 2; 3; 4; 5; 6; 7]%nat + 3 - 1) / 3.
Proof.
  apply (chunk_list_count [1; 2; 3; 4; 5; 6; 7]%nat 3); [lia|reflexivity].
Defined.

Lemma chunk_list_chunks_bounded_witness : 1 <= len [7%nat] <= 3.
Proof.
  apply (chunk_list_chunks_bounded [1; 2; 3; 4; 5; 6; 7]%nat 3
           [[1; 2; 3]; [4; 5; 6]; [7]]%nat);
    [lia | reflexivity | apply (bool_decide_unpack _); by vm_compute].
Defined.

Lemma chunk_list_lookup_witness :
  [4; 5; 6]%nat !! 2%nat = [1; 2; 3; 4; 5; 6; 7]%nat !! (1 * Z.to_nat 3 + 2)%nat.
Proof.
  apply (chunk_list_lookup [1; 2; 3; 4; 5; 6; 7]%nat 3
           [[1; 2; 3]; [4; 5; 6]; [7]]%nat 1 2);
    [lia | reflexivity | reflexivity | simpl; lia].
Defined.

Lemma summarize_in_chunks_aborts_witness :
  exists (k : nat) chunk wk,
    [[lit "a"]; [lit "b"]; [lit "c"]] !! k = Some chunk /\
    failing_on [lit "b"] chunk wk = (tt, Raised (ExternalError (lit "quota"))) /\
    summarize_in_chunks MultipleRepos.merge_instruction
      [lit "a"; lit "b"; lit "c"] (recording (failing_on [lit "b"])) 1 (tt, [])
    = ((tt, take (S k) [[lit "a"]; [lit "b"]; [lit "c"]]),
       Raised (ExternalError (lit "quota"))).
Proof.
  apply (summarize_in_chunks_aborts MultipleRepos.merge_instruction
           (failing_on [lit "b"]) [lit "a"; lit "b"; lit "c"] 1
           [[lit "a"]; [lit "b"]; [lit "c"]] tt tt);
    reflexivity.
Defined.

Lemma summarize_in_chunks_result_witness :
  exists x : list str, lit "ab" = concat x.
Proof.
  apply (summarize_in_chunks_result MultipleRepos.merge_instruction
           (fun s : str => exists x : list str, s = concat x)
           echo [lit "a"; lit "b"] 30 tt tt (lit "ab")).
  - intros x w0 w1 s [= _ <-]. by exists x.
  - reflexivity.
Defined.

Lemma need_chunking_app_witness :
  need_chunking (replicate 41 [] ++ [lit "x"]) 40 10000 = true.
Proof. apply (need_chunking_app (replicate 41 []) [lit "x"] 40 10000). reflexivity. Defined.

Lemma need_chunking_permutation_witness :
  need_chunking [lit "ab"; lit "c"] 1 2 = need_chunking [lit "c"; lit "ab"] 1 2.
Proof.
  apply (need_chunking_permutation [lit "ab"; lit "c"] [lit "c"; lit "ab"] 1 2).
  apply perm_swap.
Defined.

Lemma release_notes_for_trimmed_witness : trimmed (lit "notes").
Proof.
  apply (release_notes_for_trimmed canned [lit "PR: Add export"] tt tt).
  reflexivity.
Defined.

Lemma get_release_notes_prompt_witness :
  exists changes prompt w' r,
    MultipleRepos.get_release_notes (recording canned)
      [lit "PR: Add export"; lit "Commit: fix"] (tt, [])
    = ((w', [prompt]), r) /\
    prompt = MultipleRepos.instruction ++ lit "Changes:" ++ [newline] ++ changes /\
    split newline changes
    = (fun item => lit "- " ++ item) <$> [lit "PR: Add export"; lit "Commit: fix"].
Proof.
  apply (get_release_notes_prompt canned
           [lit "PR: Add export"; lit "Commit: fix"] tt).
  - discriminate.
  - apply (bool_decide_unpack _). by vm_compute.
Defined.

Lemma release_notes_for_requests_witness :
  exists w' requests (notes : str),
    MultipleRepos.release_notes_for (recording canned)
      (replicate 100 (lit "Commit: fix")) (tt, [])
    = ((w', requests), Returned notes) /\
    len requests = 5.
Proof.
  apply (release_notes_for_requests canned).
  intros p w. by exists w, (lit "  notes ").
Defined.


Lemma prompt_for_list_no_slash_witness :
  prompt_for_list (typing (lit "   ")) (lit "Enter repos to process")
    sample_repos tt
  = (tt, Returned sample_repos).
Proof.
  apply (prompt_for_list_no_slash (typing (lit "   ")) _ _ (lit "   "));
    [reflexivity | apply (bool_decide_unpack _); by vm_compute].
Defined.


Lemma sample_repos_plain : Forall plain_repo sample_repos.
Proof.
  repeat constructor; simpl;
    try (apply (bool_decide_unpack _); by vm_compute);
    intros c Hc; vm_compute in Hc; injection Hc as <-; reflexivity.
Defined.

Lemma prompt_for_list_round_trip_witness :
  prompt_for_list (typing (default_str sample_repos)) (lit "Enter repos") [] tt
  = (tt, Returned sample_repos).
Proof.
  apply (prompt_for_list_round_trip (typing (default_str sample_repos)));
    [discriminate | apply sample_repos_plain | reflexivity].
Defined.

Lemma prep_llm_input_single_lines_witness :
  Forall single_line
    (prep_llm_input MultipleRepos.dash
       [pr_of_pull sample_pull 5]
       [ {| sha := lit "c3";
            commit := {| message := lit "fix" ++ [newline] ++ lit "details" |} |} ]).
Proof.
  apply (prep_llm_input_single_lines MultipleRepos.dash).
  - apply (bool_decide_unpack _). by vm_compute.
  - constructor; [|constructor].
    split; apply (bool_decide_unpack _); by vm_compute.
Defined.

Lemma get_commits_messages_witness :
  lit "fix" <> [] /\ trimmed (lit "fix")
  /\ startswith (ascii_lower (lit "fix")) (lit "merge") = false.
Proof.
  apply (get_commits_messages ascii_lower
           [ {| sha := lit "c3"; commit := {| message := lit " fix " |} |} ]).
  apply (bool_decide_unpack _). by vm_compute.
Defined.

(** What the prompt makes of a line with a well-formed entry, an entry
    without slash and an entry with two. *)
Example prompt_for_list_sample :
  prompt_for_list (typing (lit " octo/app , nothing, a/b/c ")) (lit "Repos") [] tt
  = (tt, Returned [ {| owner := lit "octo"; name := lit "app" |} ]).
Proof. vm_compute. reflexivity. Qed.

(** What the fetch makes of the sample pull request. *)
Example get_merged_prs_sample :
  (fun p => (title p, body p)) <$> get_merged_prs [sample_pull] 0 10
  = [(lit "Add export", lit "First line")]
  /\ get_merged_prs [sample_pull] 6 10 = [].
Proof. vm_compute. done. Qed.

(** ** More on deduplication *)

(** X21. Deduplicating against two batches of pull requests at once is
    deduplicating against the first and then against the second. *)
Theorem filter_orphan_commits_app (C : list Commit) (P Q : list PR) :
  filter_orphan_commits C (P ++ Q)
  = filter_orphan_commits (filter_orphan_commits C P) Q.
Proof.
  rewrite !filter_orphan_commits_filter, list_filter_filter.
  apply list_filter_iff. intros c.
  rewrite fmap_app, union_list_app_L, not_elem_of_union. tauto.
Qed.
